(** * A shallow embedding of the task runner's execution engine (task.go)

    The engine is effectful (process environment, file system, terminal,
    spawned shells), fallible (every method returns a Go [error]) and
    concurrent (one goroutine per dependency, joined by an errgroup).  It is
    embedded as a small resumption monad: a [proc] is a tree of atomic
    actions on a [World]; a scheduler picks which goroutine performs the
    next action.  Theorems quantify over every schedule. *)

From Stdlib Require Import String Ascii List ZArith Bool Lia Permutation.
From stdpp Require Import base option list gmap strings.
Import ListNotations.
Local Open Scope string_scope.
Local Open Scope list_scope.
#[local] Set Warnings "-register-all".

(** ** Errors *)

(** Go's [error] interface restricted to the values this file builds.
    [taskNotFoundError] and [taskRunError] are constructed in task.go;
    [otherError] stands for errors produced by collaborators (variable
    substitution, glob resolution, process execution). *)
Inductive error : Type :=
| taskNotFoundError (taskName : string)
| taskRunError (taskName : string) (err : error)
| otherError (msg : string).

(** A Go pair [(value, error)]. *)
Inductive result (A : Type) : Type :=
| Ok (a : A)
| Err (e : error).
Arguments Ok {A} a.
Arguments Err {A} e.

Definition is_Err {A} (r : result A) : bool :=
  match r with Ok _ => false | Err _ => true end.

(** ** Strings (package strings) *)

Definition HasPrefix (s p : string) : bool := String.prefix p s.

Definition TrimPrefix (s p : string) : string :=
  if HasPrefix s p
  then String.substring (String.length p) (String.length s - String.length p) s
  else s.

Definition byte_in (a : ascii) (ns : list nat) : bool :=
  existsb (Nat.eqb (nat_of_ascii a)) ns.

(** unicode.IsSpace on the UTF-8 encoding.  One byte: TAB, LF, VT, FF, CR,
    space.  Two bytes: U+0085, U+00A0.  Three bytes: U+1680, U+2000-200A,
    U+2028, U+2029, U+202F, U+205F, U+3000. *)
Definition space1 (a : ascii) : bool := byte_in a [9; 10; 11; 12; 13; 32].

Definition space2 (a b : ascii) : bool :=
  byte_in a [194] && byte_in b [133; 160].

Definition space3 (a b c : ascii) : bool :=
  (byte_in a [225] && byte_in b [154] && byte_in c [128])
  || (byte_in a [226] && byte_in b [128]
      && byte_in c [128; 129; 130; 131; 132; 133; 134; 135; 136; 137; 138;
                    168; 169; 175])
  || (byte_in a [226] && byte_in b [129] && byte_in c [159])
  || (byte_in a [227] && byte_in b [128] && byte_in c [128]).

(** Drop leading white space; [fwd] tells whether the bytes are read in
    string order or (for the right end) in reverse. *)
Fixpoint drop_space (fwd : bool) (l : list ascii) : list ascii :=
  match l with
  | [] => []
  | a :: r1 =>
      if space1 a then drop_space fwd r1
      else
        match r1 with
        | [] => l
        | b :: r2 =>
            if (if fwd then space2 a b else space2 b a) then drop_space fwd r2
            else
              match r2 with
              | [] => l
              | c :: r3 =>
                  if (if fwd then space3 a b c else space3 c b a)
                  then drop_space fwd r3
                  else l
              end
        end
  end.

Definition TrimLeftSpace (s : string) : string :=
  string_of_list_ascii (drop_space true (list_ascii_of_string s)).

Definition TrimRightSpace (s : string) : string :=
  string_of_list_ascii
    (rev (drop_space false (rev (list_ascii_of_string s)))).

(** strings.TrimSpace: white space removed at both ends. *)
Definition TrimSpace (s : string) : string :=
  TrimRightSpace (TrimLeftSpace s).

Definition LF : string := String (ascii_of_nat 10) EmptyString.
Definition dquote : string := String (ascii_of_nat 34) EmptyString.

(** ** Time (package time) as nanoseconds from the zero instant *)

Definition Time : Type := Z.
Definition zeroTime : Time := 0%Z.
Definition IsZero (t : Time) : bool := Z.eqb t 0.
Definition After (t u : Time) : bool := Z.ltb u t.

(** ** The process environment (package os) *)

Definition has_byte (n : nat) (s : string) : bool :=
  existsb (fun a => Nat.eqb (nat_of_ascii a) n) (list_ascii_of_string s).

(** syscall.Setenv refuses an empty key, a key holding '=' or NUL, and a
    value holding NUL. *)
Definition setenv_ok (key value : string) : bool :=
  negb (String.eqb key "") && negb (has_byte 61 key) && negb (has_byte 0 key)
  && negb (has_byte 0 value).

Fixpoint env_put (key value : string) (env : list (string * string))
  : list (string * string) :=
  match env with
  | [] => [(key, value)]
  | (k, v) :: rest =>
      if String.eqb k key then (key, value) :: rest
      else (k, v) :: env_put key value rest
  end.

(** os.Setenv with its error dropped, as runCommand calls it. *)
Definition Setenv (key value : string) (env : list (string * string))
  : list (string * string) :=
  if setenv_ok key value then env_put key value env else env.

Fixpoint Getenv (key : string) (env : list (string * string))
  : option string :=
  match env with
  | [] => None
  | (k, v) :: rest => if String.eqb k key then Some v else Getenv key rest
  end.

(** fmt.Sprintf("%s=%s", k, v) *)
Definition key_value (k v : string) : string := k +:+ "=" +:+ v.

(** os.Environ() *)
Definition Environ (env : list (string * string)) : list string :=
  map (fun kv => key_value (fst kv) (snd kv)) env.

(** ** Ranging over a Go map

    The iteration order of a map is unspecified.  [shuffle c l] is the
    enumeration of [l] selected by the number [c]. *)
Fixpoint pick {A} (i : nat) (l : list A) : option (A * list A) :=
  match l with
  | [] => None
  | x :: r =>
      match i with
      | O => Some (x, r)
      | S i' =>
          match pick i' r with
          | Some (y, r') => Some (y, x :: r')
          | None => None
          end
      end
  end.

Fixpoint shuffle_fuel {A} (n : nat) (c : nat) (l : list A) : list A :=
  match n with
  | O => []
  | S n' =>
      match pick (c mod length l) l with
      | Some (x, r) => x :: shuffle_fuel n' (c / length l) r
      | None => []
      end
  end.

Definition shuffle {A} (c : nat) (l : list A) : list A :=
  shuffle_fuel (length l) c l.

Definition range_map (c : nat) (m : gmap string string)
  : list (string * string) :=
  shuffle c (map_to_list m).

(** ** The Task record (task.go, type Task) *)

Record Task : Type := mkTask {
  Cmds      : list string;
  Deps      : list string;
  Desc      : string;
  Sources   : list string;
  Generates : list string;
  Dir       : string;
  Vars      : gmap string string;
  Set_      : string;                          (* field [Set] *)
  Env       : option (gmap string string)      (* [None] is the nil map *)
}.

(** ** Options handed to execext.RunCommand *)

Inductive stream : Type := os_Stdin | os_Stdout | os_Stderr | buff.

Record RunCommandOptions : Type := mkOpts {
  Context : bool;                  (* is the context already cancelled? *)
  Command : string;
  oDir    : string;
  oEnv    : option (list string);  (* [None]: nil slice, child inherits *)
  Stdin   : stream;
  Stdout  : stream;
  Stderr  : stream
}.

(** ** Observable effects *)

Inductive event : Type :=
| Log (line : string)              (* log.Println / log.Printf *)
| Print (e : error)                (* fmt.Println(err) *)
| ExistingTasksHelp                (* printExistingTasksHelp() *)
| Fatal (line : string)            (* log.Fatal(msg): message, then exit *)
| FatalErr (e : error)             (* log.Fatal(err) *)
| Spawn (opts : RunCommandOptions) (* execext.RunCommand(opts) is called *)
| Shown (text : string).           (* child output reaching os.Stdout *)

Section Engine.

(** The file system is left abstract. *)
Variable FS : Type.

Record World : Type := mkWorld {
  environ : list (string * string);   (* process environment, in order *)
  files   : FS;
  trace   : list event
}.

Definition say (ev : list event) (w : World) : World :=
  mkWorld (environ w) (files w) (trace w ++ ev).

(** ** Processes *)

Inductive halt : Type := Exit1 | Panic | OutOfFuel.

(** [Ret e]: the function returned [e] ([None] is nil).
    [Act f]: one atomic action; [f c cancelled w] is the world after it and
    the rest of the computation ([c] resolves what the action leaves
    unspecified, [cancelled] is the state of the context).
    [Group us first k]: an errgroup whose goroutines are [us]; [first] is
    the error kept by its sync.Once; [k] receives what g.Wait() returns.
    [Halt h]: the process is gone (os.Exit, a panic, or fuel ran out). *)
Inductive proc : Type :=
| Ret (e : option error)
| Act (f : nat -> bool -> World -> World * proc)
| Group (us : list proc) (first : option error) (k : option error -> proc)
| Halt (h : halt).

Definition is_Ret (p : proc) : bool :=
  match p with Ret _ => true | _ => false end.

(** Sequencing: run [p], hand its returned error to [k]. *)
Fixpoint pbind (p : proc) (k : option error -> proc) : proc :=
  match p with
  | Ret e => k e
  | Act f => Act (fun c ca w => let (w', p') := f c ca w in (w', pbind p' k))
  | Group us first k0 => Group us first (fun e => pbind (k0 e) k)
  | Halt h => Halt h
  end.

(** An action that only reads the world. *)
Definition look {A} (f : World -> A) (k : A -> proc) : proc :=
  Act (fun _ _ w => (w, k (f w))).

(** An action that only writes to the terminal. *)
Definition tell (ev : event) (k : proc) : proc :=
  Act (fun _ _ w => (say [ev] w, k)).

(** [if err != nil { return err }] *)
Definition try {A} (r : result A) (k : A -> proc) : proc :=
  match r with
  | Err e => Ret (Some e)
  | Ok a => k a
  end.

(** errgroup bookkeeping when a goroutine has just been stepped to [u']. *)
Definition record_error (first : option error) (u' : proc) : option error :=
  match first with
  | Some e => Some e
  | None => match u' with Ret (Some e) => Some e | _ => None end
  end.

(** [advance f us i]: the running goroutine at position [i] (finished
    ones are not counted) moves by [f]; the result is what [f] gave, the
    goroutines after the move, and the new state of the one that moved. *)
Fixpoint advance {A} (f : proc -> A * proc) (us : list proc) (i : nat)
  : option (A * list proc * proc) :=
  match us with
  | [] => None
  | u :: rest =>
      let skip i' :=
        match advance f rest i' with
        | Some (a, rest', u') => Some (a, u :: rest', u')
        | None => None
        end in
      if is_Ret u then skip i
      else
        match i with
        | O => let (a, u') := f u in Some (a, u' :: rest, u')
        | S i' => skip i'
        end
  end.

Definition running (us : list proc) : nat :=
  length (List.filter (fun u => negb (is_Ret u)) us).

(** One scheduling decision.  [c] encodes the choice: at a group with [n]
    goroutines still running, the one at position [c mod n] among them
    moves and [c / n] is passed down.  When none is running, g.Wait()
    returns the recorded error.  The context seen inside a group is
    cancelled once the group has an error.  A halted goroutine never
    returns, and neither does its group. *)
Fixpoint step (c : nat) (cancelled : bool) (p : proc) (w : World)
  : World * proc :=
  match p with
  | Ret e => (w, Ret e)
  | Halt h => (w, Halt h)
  | Act f => f c cancelled w
  | Group us first k =>
      if forallb is_Ret us then (w, k first)
      else
        let n := running us in
        let inner := cancelled || bool_decide (is_Some first) in
        match advance (fun u => step (c / n) inner u w) us (c mod n) with
        | Some (w', us', u') => (w', Group us' (record_error first u') k)
        | None => (w, p)
        end
  end.

(** A move of the process under study: what the rest of the world
    (sibling goroutines, other programs) did since its previous move, the
    state of its context, and the scheduling choice. *)
Record move : Type := mkMove {
  others : World -> World;
  ctx_done : bool;
  choice : nat
}.

Fixpoint exec (sched : list move) (p : proc) (w : World) : World * proc :=
  match sched with
  | [] => (w, p)
  | m :: sched' =>
      let (w', p') := step (choice m) (ctx_done m) p (others m w) in
      exec sched' p' w'
  end.

(** The moves of the main goroutine when nothing else touches the world:
    the context is context.Background(). *)
Definition alone (c : nat) : move := mkMove (fun w => w) false c.

(** The errors of the goroutines that have returned one, and the first
    such error seen along a run of a group. *)
Fixpoint errors_of (us : list proc) : list error :=
  match us with
  | [] => []
  | Ret (Some e) :: rest => e :: errors_of rest
  | _ :: rest => errors_of rest
  end.

Definition failures (p : proc) : list error :=
  match p with
  | Group us _ _ => errors_of us
  | _ => []
  end.

(** The view of one goroutine: it went from [u] to [u'] by moves of its
    own, the rest of the group being part of the others. *)
Definition unit_view (w : World) (u u' : proc) : Prop :=
  exists sj wj, exec sj u w = (wj, u').

(** What an errgroup maintains: no error is kept while no goroutine has
    failed, and the error kept is that of one of its goroutines. *)
Definition ginv (us : list proc) (first : option error) : Prop :=
  match first with
  | None => errors_of us = []
  | Some e => In e (errors_of us)
  end.

Fixpoint first_seen (sched : list move) (p : proc) (w : World)
  : option error :=
  match failures p with
  | e :: _ => Some e
  | [] =>
      match sched with
      | [] => None
      | m :: sched' =>
          let (w', p') := step (choice m) (ctx_done m) p (others m w) in
          first_seen sched' p' w'
      end
  end.

(** ** What a process always does

    [always R H p]: every action [p] can ever perform takes a world [w] to
    a world related to it by [R] (which may depend on the state of the
    context), and [p] only ever halts in a way allowed by [H]. *)
Inductive always (R : bool -> World -> World -> Prop) (H : halt -> Prop)
  : proc -> Prop :=
| always_Ret e : always R H (Ret e)
| always_Halt h : H h -> always R H (Halt h)
| always_Act f :
    (forall c ca w, R ca w (fst (f c ca w))) ->
    (forall c ca w, always R H (snd (f c ca w))) ->
    always R H (Act f)
| always_Group us first k :
    (forall u, In u us -> always R H u) ->
    (forall e, always R H (k e)) ->
    always R H (Group us first k).

Definition any_halt (h : halt) : Prop := True.

(** The variable [key] is left as it was. *)
Definition same_variable (key : string) (ca : bool) (w w' : World) : Prop :=
  Getenv key (environ w') = Getenv key (environ w).

(** The number of calls of execext.RunCommand on record. *)
Fixpoint calls (tr : list event) : nat :=
  match tr with
  | [] => 0
  | Spawn _ :: rest => S (calls rest)
  | _ :: rest => calls rest
  end.

(** No call is forgotten, and without a new call the files are as they
    were. *)
Definition files_by_calls (ca : bool) (w w' : World) : Prop :=
  (calls (trace w) <= calls (trace w'))%nat
  /\ (calls (trace w') = calls (trace w) -> files w' = files w).

(** The terminal is only appended to, and under a cancelled context every
    call of execext.RunCommand is made with that cancelled context. *)
Definition cancelled_call (ev : event) : Prop :=
  match ev with
  | Spawn opts => Context opts = true
  | _ => True
  end.

Definition calls_cancelled (ca : bool) (w w' : World) : Prop :=
  exists evs,
    trace w' = trace w ++ evs /\ (ca = true -> Forall cancelled_call evs).

(** The world after the action of [run]. *)
Definition ran_world (RunCommand :
    RunCommandOptions -> World -> FS * string * option error)
  (opts : RunCommandOptions) (w : World) : World :=
  mkWorld (environ w) (fst (fst (RunCommand opts w)))
    (trace w ++ Spawn opts ::
       match Stdout opts with
       | os_Stdout => [Shown (snd (fst (RunCommand opts w)))]
       | _ => []
       end).

(** ** Collaborators that live outside task.go *)

(** [t.handleVariables()]: resolves the variables of a task; reads the
    world, may fail. *)
Variable handleVariables : Task -> World -> result (gmap string string).

(** [ReplaceVariables(text, vars)]: pure templating, may fail. *)
Variable ReplaceVariables : string -> gmap string string -> result string.

(** [execext.RunCommand(opts)]: the files it leaves, what the child wrote
    to [opts.Stdout], and its error. *)
Variable RunCommand :
  RunCommandOptions -> World -> FS * string * option error.

(** filepath.Glob and os.Stat(..).ModTime(). *)
Variable glob : FS -> string -> result (list string).
Variable modTime : FS -> string -> result Time.

(** ** Freshness *)

(** Modelled from the spec: what getPatternsMaxTime and getPatternsMinTime,
    which are not in task.go, compute on (spec 4.3): the files matched by
    all the patterns, and their modification times. *)
Fixpoint matches (fs : FS) (patterns : list string) : result (list string) :=
  match patterns with
  | [] => Ok []
  | p :: ps =>
      match glob fs p with
      | Err e => Err e
      | Ok fl =>
          match matches fs ps with
          | Err e => Err e
          | Ok fl' => Ok (fl ++ fl')
          end
      end
  end.

Fixpoint modTimes (fs : FS) (fl : list string) : result (list Time) :=
  match fl with
  | [] => Ok []
  | f :: fl' =>
      match modTime fs f with
      | Err e => Err e
      | Ok m =>
          match modTimes fs fl' with
          | Err e => Err e
          | Ok ms => Ok (m :: ms)
          end
      end
  end.

Definition matched_times (fs : FS) (patterns : list string)
  : result (list Time) :=
  match matches fs patterns with
  | Err e => Err e
  | Ok fl => modTimes fs fl
  end.

Definition latest (ts : list Time) : Time :=
  match ts with
  | [] => zeroTime
  | t :: ts' => fold_left Z.max ts' t
  end.

Definition earliest (ts : list Time) : Time :=
  match ts with
  | [] => zeroTime
  | t :: ts' => fold_left Z.min ts' t
  end.

(** Modelled from the spec: getPatternsMaxTime is not in task.go.  Per the
    spec (4.3) it is the latest modification time among all files matched
    by all the patterns, an error when a pattern or a time stamp cannot be
    resolved, and the zero time when nothing matches. *)
Definition getPatternsMaxTime (fs : FS) (patterns : list string)
  : result Time :=
  match matched_times fs patterns with
  | Err e => Err e
  | Ok ts => Ok (latest ts)
  end.

(** Modelled from the spec: getPatternsMinTime is not in task.go.  Per the
    spec (4.3) it is the earliest modification time among all files matched
    by all the patterns, an error when a pattern or a time stamp cannot be
    resolved, and the zero time when nothing matches. *)
Definition getPatternsMinTime (fs : FS) (patterns : list string)
  : result Time :=
  match matched_times fs patterns with
  | Err e => Err e
  | Ok ts => Ok (earliest ts)
  end.

Definition isUpToDate (t : Task) (fs : FS) : bool :=
  if (length (Sources t) =? 0)%nat || (length (Generates t) =? 0)%nat
  then false
  else
    match getPatternsMaxTime fs (Sources t) with
    | Err _ => false
    | Ok sourcesMaxTime =>
        if IsZero sourcesMaxTime then false
        else
          match getPatternsMinTime fs (Generates t) with
          | Err _ => false
          | Ok generatesMinTime =>
              if IsZero generatesMinTime then false
              else After generatesMinTime sourcesMaxTime
          end
    end.

(** ** The environment of a command *)

Fixpoint appendEnv (pairs : list (string * string))
  (vars : gmap string string) (envs : list string) : result (list string) :=
  match pairs with
  | [] => Ok envs
  | (k, v) :: rest =>
      match ReplaceVariables v vars with
      | Err e => Err e
      | Ok replacedValue =>
          match ReplaceVariables k vars with
          | Err e => Err e
          | Ok replacedKey =>
              appendEnv rest vars (envs ++ [key_value replacedKey replacedValue])
          end
      end
  end.

(** [c] selects the order in which [range t.Env] visits the map. *)
Definition getEnviron (c : nat) (t : Task) (vars : gmap string string)
  (w : World) : result (option (list string)) :=
  match Env t with
  | None => Ok None
  | Some m =>
      match appendEnv (range_map c m) vars (Environ (environ w)) with
      | Err e => Err e
      | Ok envs => Ok (Some envs)
      end
  end.

(** [s] is the entry built from the pair [kv]: both halves substituted and
    joined by '='. *)
Definition substituted (vars : gmap string string) (kv : string * string)
  (s : string) : Prop :=
  exists k' v', ReplaceVariables (fst kv) vars = Ok k'
             /\ ReplaceVariables (snd kv) vars = Ok v'
             /\ s = key_value k' v'.

Definition unresolved (vars : gmap string string) (kv : string * string)
  : Prop :=
  is_Err (ReplaceVariables (fst kv) vars) = true
  \/ is_Err (ReplaceVariables (snd kv) vars) = true.

(** The entry getEnviron appends for the pair [kv] when both halves can be
    substituted. *)
Definition entry_of (vars : gmap string string) (kv : string * string)
  : string :=
  match ReplaceVariables (fst kv) vars, ReplaceVariables (snd kv) vars with
  | Ok k', Ok v' => key_value k' v'
  | _, _ => ""
  end.

(** [t] with other [Dir], [Set] and [Env]. *)
Definition with_settings (t : Task) (dir set : string)
  (env : option (gmap string string)) : Task :=
  mkTask (Cmds t) (Deps t) (Desc t) (Sources t) (Generates t) dir (Vars t)
         set env.

(** ** Running tasks *)

Section Registry.

(** The registry [Tasks].  In Go it maps a name to a pointer; an entry
    here is a task, so a name bound to a nil pointer is not represented. *)
Variable Tasks : gmap string Task.
Variable Force : bool.

Section Body.

(** The recursive call, tied by [RunTask] below. *)
Variable RunTask : string -> proc.

(** The function handed to g.Go for the dependency [d]. *)
Definition dep_unit (vars : gmap string string) (d : string) : proc :=
  look (fun _ => ReplaceVariables d vars) (fun r =>
  try r (fun dep => RunTask dep)).

Definition runDeps (t : Task) : proc :=
  (* vars, err := t.handleVariables() *)
  look (handleVariables t) (fun r =>
  try r (fun vars =>
  (* g.Go(...) for each d in t.Deps; return g.Wait() *)
  Group (map (dep_unit vars) (Deps t)) None Ret)).

(** The call of execext.RunCommand, as one action: the child runs from
    the world it finds to the world it leaves.  The context is read when
    the call is made. *)
Definition run (c dir : string) (envs : option (list string))
  (out : stream) (k : option error -> string -> proc) : proc :=
  Act (fun _ ca w =>
    let opts := mkOpts ca c dir envs os_Stdin out os_Stderr in
    let '(fs', text, err) := RunCommand opts w in
    (mkWorld (environ w) fs'
       (trace w ++ Spawn opts ::
          match out with os_Stdout => [Shown text] | _ => [] end),
     k err text)).

(** [os.Setenv(key, strings.TrimSpace(buff.String())); return nil] *)
Definition assign (key text : string) : proc :=
  Act (fun _ _ w =>
    (mkWorld (Setenv key (TrimSpace text) (environ w)) (files w) (trace w),
     Ret None)).

Definition runCommand (t : Task) (i : nat) : proc :=
  (* vars, err := t.handleVariables() *)
  look (handleVariables t) (fun r =>
  try r (fun vars =>
  (* c, err := ReplaceVariables(t.Cmds[i], vars) *)
  match Cmds t !! i with
  | None => Halt Panic
  | Some ci =>
  try (ReplaceVariables ci vars) (fun c =>
  if HasPrefix c "^" then
    (* return RunTask(ctx, strings.TrimPrefix(c, "^")) *)
    RunTask (TrimPrefix c "^")
  else
    (* dir, err := ReplaceVariables(t.Dir, vars) *)
    try (ReplaceVariables (Dir t) vars) (fun dir =>
    (* envs, err := t.getEnviron(vars) *)
    Act (fun n _ w => (w,
    try (getEnviron n t vars w) (fun envs =>
    if String.eqb (Set_ t) "" then
      (* log.Println(c); opts.Stdout = os.Stdout; RunCommand(opts) *)
      tell (Log c)
        (run c dir envs os_Stdout (fun err _ => Ret err))
    else
      (* opts.Stdout = buff; RunCommand(opts) *)
      run c dir envs buff (fun err text =>
        match err with
        | Some e => Ret (Some e)
        | None => assign (Set_ t) text
        end))))))
  end)).

(** [for i := range t.Cmds]: the first error ends the loop, wrapped in a
    taskRunError. *)
Fixpoint runCmds (t : Task) (name : string) (idx : list nat) : proc :=
  match idx with
  | [] => Ret None
  | i :: rest =>
      pbind (runCommand t i) (fun err =>
        match err with
        | Some e => Ret (Some (taskRunError name e))
        | None => runCmds t name rest
        end)
  end.

Definition up_to_date_line (name : string) : string :=
  "task: Task " +:+ dquote +:+ name +:+ dquote +:+ " is up to date".

(** What RunTask does once runDeps has returned [err]. *)
Definition afterDeps (t : Task) (name : string) (err : option error) : proc :=
  match err with
  | Some e => Ret (Some e)
  | None =>
      let cmds := runCmds t name (seq 0 (length (Cmds t))) in
      if negb Force then
        look (fun w => isUpToDate t (files w)) (fun fresh =>
          if fresh then tell (Log (up_to_date_line name)) (Ret None)
          else cmds)
      else cmds
  end.

Definition RunTask_body (name : string) : proc :=
  match Tasks !! name with
  | None => Ret (Some (taskNotFoundError name))
  | Some t => pbind (runDeps t) (afterDeps t name)
  end.

(** *** The shape of a run of a task

    [cmds_run t name idx s w w' q]: the moves [s], started in [w] on the
    commands [idx] of [t], lead to the world [w'] and the state [q], and
    they are: the commands of [idx] one after the other, each from its
    first move to its return, the next one starting in the world where
    the previous one returned nil. *)
Definition next_cmd (t : Task) (name : string) (rest : list nat)
  (err : option error) : proc :=
  match err with
  | Some e => Ret (Some (taskRunError name e))
  | None => runCmds t name rest
  end.

Inductive cmds_run (t : Task) (name : string)
  : list nat -> list move -> World -> World -> proc -> Prop :=
| cmds_none s w w' :
    exec s (Ret None) w = (w', Ret None) ->
    cmds_run t name [] s w w' (Ret None)
| cmds_busy i rest s w w' q :
    exec s (runCommand t i) w = (w', q) ->
    is_Ret q = false ->
    cmds_run t name (i :: rest) s w w' (pbind q (next_cmd t name rest))
| cmds_failed i rest s1 s2 w w1 w' e :
    exec s1 (runCommand t i) w = (w1, Ret (Some e)) ->
    exec s2 (Ret (Some (taskRunError name e))) w1
      = (w', Ret (Some (taskRunError name e))) ->
    cmds_run t name (i :: rest) (s1 ++ s2) w w'
      (Ret (Some (taskRunError name e)))
| cmds_next i rest s1 s2 w w1 w' q :
    exec s1 (runCommand t i) w = (w1, Ret None) ->
    cmds_run t name rest s2 w1 w' q ->
    cmds_run t name (i :: rest) (s1 ++ s2) w w' q.

(** [after_run]: what follows a nil return of runDeps.  Under [Force] the
    commands; otherwise one look at the files, then either the up-to-date
    line or the commands. *)
Inductive after_run (t : Task) (name : string)
  : list move -> World -> World -> proc -> Prop :=
| after_forced s w w' q :
    Force = true ->
    cmds_run t name (seq 0 (length (Cmds t))) s w w' q ->
    after_run t name s w w' q
| after_checking w :
    Force = false ->
    after_run t name [] w w (afterDeps t name None)
| after_fresh m s w w' q :
    Force = false ->
    isUpToDate t (files (others m w)) = true ->
    exec s (tell (Log (up_to_date_line name)) (Ret None)) (others m w)
      = (w', q) ->
    after_run t name (m :: s) w w' q
| after_stale m s w w' q :
    Force = false ->
    isUpToDate t (files (others m w)) = false ->
    cmds_run t name (seq 0 (length (Cmds t))) s (others m w) w' q ->
    after_run t name (m :: s) w w' q.

(** [task_run]: a run of RunTask on a task of the registry is a run of
    runDeps and, only once runDeps has returned, either its error handed
    back as it is, or [after_run]. *)
Inductive task_run (t : Task) (name : string)
  : list move -> World -> World -> proc -> Prop :=
| task_deps s w w' q :
    exec s (runDeps t) w = (w', q) ->
    is_Ret q = false ->
    task_run t name s w w' (pbind q (afterDeps t name))
| task_deps_failed s1 s2 w w1 w' e :
    exec s1 (runDeps t) w = (w1, Ret (Some e)) ->
    exec s2 (Ret (Some e)) w1 = (w', Ret (Some e)) ->
    task_run t name (s1 ++ s2) w w' (Ret (Some e))
| task_after s1 s2 w w1 w' q :
    exec s1 (runDeps t) w = (w1, Ret None) ->
    after_run t name s2 w1 w' q ->
    task_run t name (s1 ++ s2) w w' q.

(** Every dependency of [t] has been run to a nil return: its name was
    substituted and RunTask on it returned nil. *)
Definition deps_succeeded (t : Task) (vars : gmap string string) : Prop :=
  Forall (fun d =>
            exists dep s wa wb,
              ReplaceVariables d vars = Ok dep
              /\ exec s (RunTask dep) wa = (wb, Ret None))
         (Deps t).

End Body.

(** [RunTask fuel name]: [fuel] bounds the depth of nested task
    invocations (dependencies and sub-task commands).  A chain of
    invocations that never ends, as of a task that invokes itself, ends
    here in [Halt OutOfFuel]. *)
Fixpoint RunTask (fuel : nat) (name : string) : proc :=
  match fuel with
  | O => Halt OutOfFuel
  | S fuel' => RunTask_body (RunTask fuel') name
  end.

End Registry.

(** ** The driver *)

Variable readTaskfile : World -> result (gmap string Task).
Variable HasCyclicDep : gmap string Task -> bool.
Variable WatchTasks : gmap string Task -> list string -> proc.
Variable Force : bool.
Variable Watch : bool.

Definition fatal (ev : event) : proc :=
  Act (fun _ _ w => (say [ev] w, Halt Exit1)).

Fixpoint runAll (tasks : gmap string Task) (fuel : nat) (args : list string)
  : proc :=
  match args with
  | [] => Ret None
  | a :: rest =>
      pbind (RunTask tasks Force fuel a) (fun err =>
        match err with
        | Some e => fatal (FatalErr e)
        | None => runAll tasks fuel rest
        end)
  end.

Definition missing (tasks : gmap string Task) (a : string) : bool :=
  match tasks !! a with Some _ => false | None => true end.

Definition Run_loaded (tasks : gmap string Task) (fuel : nat)
  (args : list string) : proc :=
  if HasCyclicDep tasks then fatal (Fatal "Cyclic dependency detected")
  else
    match find (missing tasks) args with
    | Some a =>
        tell (Print (taskNotFoundError a)) (tell ExistingTasksHelp (Ret None))
    | None =>
        if Watch then
          pbind (WatchTasks tasks args) (fun err =>
            match err with
            | Some e => fatal (FatalErr e)
            | None => Ret None
            end)
        else runAll tasks fuel args
    end.

Definition Run_args (fuel : nat) (args : list string) : proc :=
  look readTaskfile (fun r =>
    match r with
    | Err e => fatal (FatalErr e)
    | Ok tasks => Run_loaded tasks fuel args
    end).

(** The names Run works on, the move it spends on the notice when none is
    given, and the world after that notice. *)
Definition requested (args : list string) : list string :=
  if (length args =? 0)%nat then ["default"] else args.

Definition opening (args : list string) (m0 : move) : list move :=
  if (length args =? 0)%nat then [m0] else [].

Definition noticed (args : list string) (m0 : move) (w : World) : World :=
  if (length args =? 0)%nat
  then say [Log "task: No argument given, trying default task"] (others m0 w)
  else w.

(** [Run()], with [args] standing for pflag.Args(). *)
Definition Run (fuel : nat) (args : list string) : proc :=
  if (length args =? 0)%nat then
    tell (Log "task: No argument given, trying default task")
      (Run_args fuel ["default"])
  else Run_args fuel args.

End Engine.

Arguments mkWorld {FS} environ files trace.
Arguments environ {FS} w.
Arguments files {FS} w.
Arguments trace {FS} w.
Arguments say {FS} ev w.
Arguments Ret {FS} e.
Arguments Act {FS} f.
Arguments Group {FS} us first k.
Arguments Halt {FS} h.
Arguments is_Ret {FS} p.
Arguments pbind {FS} p k.
Arguments record_error {FS} first u'.
Arguments advance {FS A} f us i.
Arguments running {FS} us.
Arguments step {FS} c cancelled p w.
Arguments mkMove {FS} others ctx_done choice.
Arguments others {FS} m w.
Arguments ctx_done {FS} m.
Arguments choice {FS} m.
Arguments exec {FS} sched p w.
Arguments alone {FS} c.
Arguments errors_of {FS} us.
Arguments failures {FS} p.
Arguments first_seen {FS} sched p w.
Arguments ginv {FS} us first.
Arguments unit_view {FS} w u u'.
Arguments always {FS} R H p.
Arguments any_halt h /.
Arguments same_variable {FS} key ca w w'.
Arguments files_by_calls {FS} ca w w'.
Arguments calls_cancelled {FS} ca w w'.
Arguments ran_world {FS} RunCommand opts w.

(** ** A concrete instance, used to run the model

    Files are a table of modification times; a pattern matches the file of
    that name; variables are the task's own; templates are left as they
    are, except that a template holding '$' fails; the shell knows
    [echo text] (prints [text] and a newline) and [false] (fails). *)
Module Demo.

Definition FS : Type := list (string * Time).

Definition stat (fs : FS) (f : string) : option Time :=
  snd <$> find (fun e => String.eqb (fst e) f) fs.

Definition glob (fs : FS) (p : string) : result (list string) :=
  match stat fs p with Some _ => Ok [p] | None => Ok [] end.

Definition modTime (fs : FS) (f : string) : result Time :=
  match stat fs f with
  | Some m => Ok m
  | None => Err (otherError "no such file")
  end.

Definition handleVariables (t : Task) (w : World FS)
  : result (gmap string string) := Ok (Vars t).

Definition ReplaceVariables (s : string) (vars : gmap string string)
  : result string :=
  if has_byte 36 s then Err (otherError "no value for variable") else Ok s.

Definition RunCommand (opts : RunCommandOptions) (w : World FS)
  : FS * string * option error :=
  if String.eqb (Command opts) "false"
  then (files w, "", Some (otherError "exit status 1"))
  else if HasPrefix (Command opts) "echo "
  then (files w, TrimPrefix (Command opts) "echo " +:+ LF, None)
  else (files w, "", None).

Definition readTaskfile (tasks : gmap string Task) (w : World FS)
  : result (gmap string Task) := Ok tasks.

Definition WatchTasks (tasks : gmap string Task) (args : list string)
  : proc FS := Ret None.

Definition task (cmds deps : list string) : Task :=
  mkTask cmds deps "" [] [] "" ∅ "" None.

Definition world0 : World FS := mkWorld [("HOME", "/root")] [] [].

(** Collaborators that fail. *)
Definition noVariables (t : Task) (w : World FS)
  : result (gmap string string) := Err (otherError "no variables").

Definition noTaskfile (w : World FS) : result (gmap string Task) :=
  Err (otherError "no Taskfile").

(** RunTask over variables that cannot be resolved, Run in watch mode,
    and Run without a readable Taskfile. *)
Definition RunTask_noVariables (tasks : gmap string Task) (force : bool)
  : nat -> string -> proc FS :=
  RunTask FS noVariables ReplaceVariables RunCommand glob modTime
    tasks force.

Definition Run_watching (tasks : gmap string Task)
  : nat -> list string -> proc FS :=
  Run FS handleVariables ReplaceVariables RunCommand glob modTime
    (readTaskfile tasks) (fun _ => false) WatchTasks false true.

Definition Run_noTaskfile : nat -> list string -> proc FS :=
  Run FS handleVariables ReplaceVariables RunCommand glob modTime
    noTaskfile (fun _ => false) WatchTasks false false.

Definition RunTask (tasks : gmap string Task) (force : bool)
  : nat -> string -> proc FS :=
  RunTask FS handleVariables ReplaceVariables RunCommand glob modTime
    tasks force.

Definition Run (cyclic : bool) (tasks : gmap string Task) (force : bool)
  : nat -> list string -> proc FS :=
  Run FS handleVariables ReplaceVariables RunCommand glob modTime
    (readTaskfile tasks) (fun _ => cyclic) WatchTasks force false.

(** runCommand when Force is set. *)
Definition runCommand_forced (tasks : gmap string Task) (fuel : nat)
  : Task -> nat -> proc FS :=
  runCommand FS handleVariables ReplaceVariables RunCommand
    (RunTask tasks true fuel).

Definition runDeps (tasks : gmap string Task) (fuel : nat) : Task -> proc FS :=
  runDeps FS handleVariables ReplaceVariables (RunTask tasks false fuel).

Definition runCommand (tasks : gmap string Task) (fuel : nat)
  : Task -> nat -> proc FS :=
  runCommand FS handleVariables ReplaceVariables RunCommand
    (RunTask tasks false fuel).

Definition isUpToDate : Task -> FS -> bool := isUpToDate FS glob modTime.

Definition times : FS -> list string -> result (list Time) :=
  matched_times FS glob modTime.

(** [a] depends on [b] and [c], and invokes [b] as a step. *)
Definition task_a : Task := task ["echo a1"; "^b"; "echo a2"] ["b"; "c"].

Definition tasks1 : gmap string Task :=
  <["a" := task_a]>
  (<["b" := task ["echo b"] []]>
  (<["c" := task ["echo c"] ["b"]]> ∅)).

(** [p] depends on [x], which fails, and on [y], which would succeed. *)
Definition task_p : Task := task ["echo p"] ["x"; "y"].

Definition tasks2 : gmap string Task :=
  <["p" := task_p]>
  (<["x" := task ["false"] []]>
  (<["y" := task ["echo y"] []]> ∅)).

(** Tasks that capture their output in OUT. *)
Definition task_hello : Task :=
  mkTask ["echo hello"] [] "" [] [] "" ∅ "OUT" None.

Definition task_indented : Task :=
  mkTask ["echo   hello"] [] "" [] [] "" ∅ "OUT" None.

(** A task whose only command is a sub-task invocation, and the same with
    a [Dir] and an [Env] that cannot be substituted. *)
Definition task_sub : Task := task ["^b"] [].

Definition task_sub' : Task :=
  with_settings task_sub "$nowhere" "OUT" (Some {["K" := "$V"]}).

Definition task_env : Task :=
  mkTask [] [] "" [] [] "" ∅ "" (Some {["A" := "1"]}).

(** One source, one generated file. *)
Definition task_gen : Task := mkTask [] [] "" ["s"] ["g"] "" ∅ "" None.

Definition fs_newer : FS := [("s", 3%Z); ("g", 5%Z)].

(** One source, one generated file, and a command that builds it. *)
Definition task_built : Task :=
  mkTask ["echo build"] [] "" ["s"] ["g"] "" ∅ "" None.

Definition tasks_built : gmap string Task := {["g" := task_built]}.

(** The source carries the zero instant as its modification time. *)
Definition fs_zero : FS := [("s", 0%Z); ("g", 5%Z)].

Definition quiet (n : nat) : list (move FS) := map alone (repeat 0 n).

(** The commands handed to the shell, in order. *)
Definition commands (tr : list event) : list string :=
  flat_map (fun ev =>
              match ev with
              | Spawn opts => [Command opts]
              | _ => []
              end) tr.

Definition busy (n : nat) : list (move FS) := map alone (repeat 1 n).

(** Was the shell asked to run the command [c]? *)
Definition ran (c : string) (tr : list event) : bool :=
  existsb (fun ev =>
             match ev with
             | Spawn opts => String.eqb (Command opts) c
             | _ => false
             end) tr.

(** A registry with a task that stores its output, and one with a task
    that depends on a name not in the registry. *)
Definition tasks3 : gmap string Task := <["h" := task_hello]> tasks1.

Definition task_q : Task := task ["echo q"] ["nope"].

Definition tasks6 : gmap string Task := <["q" := task_q]> tasks1.

(** A step that invokes a task not in the registry, followed by a
    command. *)
Definition task_lost : Task := task ["^zz"; "echo after"] [].

Definition task_echo : Task := task ["echo hi"] [].

(** A [Dir] that cannot be substituted. *)
Definition task_baddir : Task :=
  mkTask ["echo hi"] [] "" [] [] "$nowhere" ∅ "" None.

Definition task_env2 : Task :=
  mkTask [] [] "" [] [] "" ∅ "" (Some (<["A" := "1"]> {["B" := "2"]})).

Definition world_newer : World FS := mkWorld [("HOME", "/root")] fs_newer [].

Definition world_hello : World FS :=
  mkWorld [("HOME", "/root"); ("OUT", "hello")] [] [].

(** The world after [task_hello] has run its command from [world0]. *)
Definition world_hello_ran : World FS :=
  mkWorld [("HOME", "/root"); ("OUT", "hello")] []
    [Spawn (mkOpts false "echo hello" "" None os_Stdin buff os_Stderr)].

End Demo.

(** * Properties *)

(** ** Strings and the environment *)

Lemma substring_all (s : string) : String.substring 0 (String.length s) s = s.
Proof. induction s as [|a s IH]; simpl; [reflexivity | now rewrite IH]. Qed.

Lemma HasPrefix_caret (rest : string) : HasPrefix ("^" +:+ rest) "^" = true.
Proof. unfold HasPrefix. simpl. now destruct rest. Qed.

Lemma TrimPrefix_caret (rest : string) : TrimPrefix ("^" +:+ rest) "^" = rest.
Proof.
  unfold TrimPrefix. rewrite HasPrefix_caret. simpl.
  rewrite Nat.sub_0_r. apply substring_all.
Qed.

Lemma Getenv_env_put (key value : string) (env : list (string * string)) :
  Getenv key (env_put key value env) = Some value.
Proof.
  induction env as [|[k v] env IH]; simpl.
  - now rewrite String.eqb_refl.
  - destruct (String.eqb k key) eqn:E; simpl.
    + now rewrite String.eqb_refl.
    + now rewrite E.
Qed.

Lemma Getenv_Setenv (key value : string) (env : list (string * string)) :
  setenv_ok key value = true -> Getenv key (Setenv key value env) = Some value.
Proof. unfold Setenv. intros ->. apply Getenv_env_put. Qed.

(** ** Ranging over a map visits every entry once *)

Lemma pick_Permutation {A} (i : nat) (l : list A) x r :
  pick i l = Some (x, r) -> Permutation l (x :: r).
Proof.
  revert i x r. induction l as [|y l IH]; intros [|i] x r; simpl; try discriminate.
  - intros [= -> ->]. reflexivity.
  - destruct (pick i l) as [[z r']|] eqn:E; [|discriminate].
    intros [= -> <-]. rewrite (IH _ _ _ E). apply perm_swap.
Qed.

Lemma pick_lt {A} (i : nat) (l : list A) :
  (i < length l)%nat -> exists x r, pick i l = Some (x, r).
Proof.
  revert i. induction l as [|y l IH]; intros [|i]; simpl; try lia; eauto.
  intros H. destruct (IH i) as (x & r & ->); [lia|]. eauto.
Qed.

Lemma shuffle_fuel_Permutation {A} (n c : nat) (l : list A) :
  length l = n -> Permutation (shuffle_fuel n c l) l.
Proof.
  revert c l. induction n as [|n IH]; intros c l Hn; simpl.
  - destruct l; [reflexivity | discriminate].
  - destruct (pick_lt (c mod length l) l) as (x & r & E).
    { apply Nat.mod_upper_bound. lia. }
    rewrite E. pose proof (pick_Permutation _ _ _ _ E) as HP.
    transitivity (x :: r); [|now symmetry].
    constructor. apply IH.
    apply Permutation_length in HP. simpl in HP. lia.
Qed.

Lemma shuffle_Permutation {A} (c : nat) (l : list A) :
  Permutation (shuffle c l) l.
Proof. now apply shuffle_fuel_Permutation. Qed.

(** Every enumeration is selected by some number. *)
Lemma pick_app {A} (l1 : list A) x l2 :
  pick (length l1) (l1 ++ x :: l2) = Some (x, l1 ++ l2).
Proof. induction l1 as [|y l1 IH]; simpl; [reflexivity | now rewrite IH]. Qed.

Lemma shuffle_fuel_complete {A} (l' l : list A) :
  Permutation l' l -> exists c, shuffle_fuel (length l) c l = l'.
Proof.
  revert l. induction l' as [|x l' IH]; intros l HP.
  - apply Permutation_nil in HP. subst. now exists 0%nat.
  - assert (Hin : In x l) by (rewrite <- HP; now left).
    apply in_split in Hin as (l1 & l2 & ->).
    apply Permutation_cons_app_inv in HP.
    destruct (IH _ HP) as [c Hc].
    set (n := length (l1 ++ x :: l2)).
    assert (Hn : n = S (length (l1 ++ l2))).
    { unfold n. rewrite !length_app. simpl. lia. }
    exists (length l1 + c * n)%nat. rewrite Hn at 1. simpl. fold n.
    assert (Hlt : (length l1 < n)%nat).
    { unfold n. rewrite length_app. simpl. lia. }
    rewrite Nat.Div0.mod_add, Nat.mod_small by assumption.
    rewrite pick_app. f_equal.
    rewrite Nat.div_add, Nat.div_small by lia.
    exact Hc.
Qed.

Lemma shuffle_complete {A} (l' l : list A) :
  Permutation l' l -> exists c, shuffle c l = l'.
Proof. apply shuffle_fuel_complete. Qed.

Section Facts.

Context {FS : Type}.
Context (handleVariables : Task -> World FS -> result (gmap string string)).
Context (ReplaceVariables : string -> gmap string string -> result string).
Context (RunCommand :
  RunCommandOptions -> World FS -> FS * string * option error).
Context (glob : FS -> string -> result (list string)).
Context (modTime : FS -> string -> result Time).

(** ** getEnviron *)

Lemma appendEnv_Ok pairs vars envs r :
  appendEnv ReplaceVariables pairs vars envs = Ok r ->
  exists added, r = envs ++ added /\ Forall2 (substituted ReplaceVariables vars) pairs added.
Proof.
  revert envs. induction pairs as [|[k v] pairs IH]; intros envs; simpl.
  - intros [= <-]. exists []. split; [now rewrite app_nil_r | constructor].
  - destruct (ReplaceVariables v vars) as [v'|] eqn:Ev; [|discriminate].
    destruct (ReplaceVariables k vars) as [k'|] eqn:Ek; [|discriminate].
    intros H. destruct (IH _ H) as (added & -> & HF).
    exists (key_value k' v' :: added). split.
    + now rewrite <- app_assoc.
    + constructor; [|assumption]. exists k', v'. auto.
Qed.

Lemma appendEnv_Err pairs vars envs :
  (exists e, appendEnv ReplaceVariables pairs vars envs = Err e)
  <-> Exists (unresolved ReplaceVariables vars) pairs.
Proof.
  revert envs. induction pairs as [|[k v] pairs IH]; intros envs; simpl.
  - split; [intros [e H]; discriminate | intros H; inversion H].
  - rewrite Exists_cons. unfold unresolved at 1. simpl.
    destruct (ReplaceVariables v vars) as [v'|] eqn:Ev;
      destruct (ReplaceVariables k vars) as [k'|] eqn:Ek; simpl.
    + rewrite IH. intuition discriminate.
    + split; eauto.
    + split; eauto.
    + split; eauto.
Qed.

(** C10. With a nil [Env], getEnviron returns a nil list and no error.
    With a non-nil [Env] it fails exactly when the substitution of some
    key or value of the map fails, and otherwise returns os.Environ()
    followed by one substituted [key=value] entry per pair of the map (in
    the order in which the map was ranged over). *)
Theorem getEnviron_spec (c : nat) (t : Task) (vars : gmap string string)
  (w : World FS) :
  (Env t = None -> getEnviron FS ReplaceVariables c t vars w = Ok None)
  /\ (forall m, Env t = Some m ->
        ((exists e, getEnviron FS ReplaceVariables c t vars w = Err e)
         <-> exists k v, m !! k = Some v /\ unresolved ReplaceVariables vars (k, v))
        /\ (forall r, getEnviron FS ReplaceVariables c t vars w = Ok r ->
              exists order added,
                Permutation order (map_to_list m)
                /\ Forall2 (substituted ReplaceVariables vars) order added
                /\ r = Some (Environ (environ w) ++ added))).
Proof.
  unfold getEnviron. split; [intros ->; reflexivity|].
  intros m ->. split.
  - destruct (appendEnv _ _ _ _) as [envs|e] eqn:E.
    + split; [intros [e H]; discriminate|].
      intros (k & v & Hkv & Hbad). exfalso.
      assert (HE : Exists (unresolved ReplaceVariables vars) (range_map c m)).
      { apply Exists_exists. exists (k, v). split; [|assumption].
        unfold range_map. rewrite shuffle_Permutation.
        now apply elem_of_map_to_list. }
      apply appendEnv_Err with (envs := Environ (environ w)) in HE.
      destruct HE as [e' HE]. congruence.
    + split; [|eauto]. intros _.
      assert (HE : Exists (unresolved ReplaceVariables vars) (range_map c m)).
      { eapply appendEnv_Err. eauto. }
      apply Exists_exists in HE as ([k v] & Hin & Hbad).
      exists k, v. split; [|assumption].
      apply elem_of_map_to_list.
      unfold range_map in Hin. now rewrite shuffle_Permutation in Hin.
  - intros r. destruct (appendEnv _ _ _ _) as [envs|e] eqn:E; [|discriminate].
    intros [= <-]. apply appendEnv_Ok in E as (added & -> & HF).
    exists (range_map c m), added. split; [apply shuffle_Permutation|auto].
Qed.

(** ** isUpToDate *)

Lemma fold_max_spec (ts : list Time) (t : Time) :
  In (fold_left Z.max ts t) (t :: ts)
  /\ forall x, In x (t :: ts) -> (x <= fold_left Z.max ts t)%Z.
Proof.
  revert t. induction ts as [|u ts IH]; intros t; simpl.
  - split; [now left | intros x [->|[]]; lia].
  - destruct (IH (Z.max t u)) as [Hin Hle]. split.
    + destruct Hin as [Hin|Hin]; [|now right; right].
      rewrite <- Hin. destruct (Z.max_spec t u) as [[_ ->]|[_ ->]]; auto.
    + intros x [->|[->|Hx]].
      * etransitivity; [|apply Hle; now left]. lia.
      * etransitivity; [|apply Hle; now left]. lia.
      * apply Hle. now right.
Qed.

Lemma fold_min_spec (ts : list Time) (t : Time) :
  In (fold_left Z.min ts t) (t :: ts)
  /\ forall x, In x (t :: ts) -> (fold_left Z.min ts t <= x)%Z.
Proof.
  revert t. induction ts as [|u ts IH]; intros t; simpl.
  - split; [now left | intros x [->|[]]; lia].
  - destruct (IH (Z.min t u)) as [Hin Hle]. split.
    + destruct Hin as [Hin|Hin]; [|now right; right].
      rewrite <- Hin. destruct (Z.min_spec t u) as [[_ ->]|[_ ->]]; auto.
    + intros x [->|[->|Hx]].
      * etransitivity; [apply Hle; now left|]. lia.
      * etransitivity; [apply Hle; now left|]. lia.
      * apply Hle. now right.
Qed.

(** [latest] and [earliest] are what their names say. *)
Lemma latest_spec (ts : list Time) :
  ts <> [] -> In (latest ts) ts /\ forall x, In x ts -> (x <= latest ts)%Z.
Proof. destruct ts; [congruence | intros _; apply fold_max_spec]. Qed.

Lemma earliest_spec (ts : list Time) :
  ts <> [] -> In (earliest ts) ts /\ forall x, In x ts -> (earliest ts <= x)%Z.
Proof. destruct ts; [congruence | intros _; apply fold_min_spec]. Qed.

Local Abbreviation times := (matched_times FS glob modTime).
Local Abbreviation fresh := (isUpToDate FS glob modTime).

(** C3 (amended).  isUpToDate is false when [Sources] or [Generates] is
    empty, when resolving either pattern set fails, when either set
    matches no file, and when the latest source time or the earliest
    generated time is the zero instant.  In every other case it is true
    exactly when the earliest generated time is strictly after the latest
    source time, that is when every generated file is strictly newer than
    every source file. *)
Theorem isUpToDate_spec (t : Task) (fs : FS) :
  (Sources t = [] \/ Generates t = [] -> fresh t fs = false)
  /\ (is_Err (times fs (Sources t)) = true
      \/ is_Err (times fs (Generates t)) = true -> fresh t fs = false)
  /\ (matches FS glob fs (Sources t) = Ok []
      \/ matches FS glob fs (Generates t) = Ok [] -> fresh t fs = false)
  /\ (forall ss gs,
        times fs (Sources t) = Ok ss -> times fs (Generates t) = Ok gs ->
        latest ss = zeroTime \/ earliest gs = zeroTime -> fresh t fs = false)
  /\ (forall ss gs,
        Sources t <> [] -> Generates t <> [] ->
        times fs (Sources t) = Ok ss -> times fs (Generates t) = Ok gs ->
        latest ss <> zeroTime -> earliest gs <> zeroTime ->
        (fresh t fs = true <-> (latest ss < earliest gs)%Z)
        /\ (fresh t fs = true
            <-> forall g s, In g gs -> In s ss -> (s < g)%Z)).
Proof.
  assert (Hzero : forall ss gs,
    times fs (Sources t) = Ok ss -> times fs (Generates t) = Ok gs ->
    latest ss = zeroTime \/ earliest gs = zeroTime -> fresh t fs = false).
  { intros ss gs Hs Hg Hz. unfold isUpToDate, getPatternsMaxTime,
      getPatternsMinTime. rewrite Hs, Hg.
    destruct (_ || _); [reflexivity|].
    destruct Hz as [-> | ->]; simpl; [reflexivity|].
    now destruct (IsZero (latest ss)). }
  split; [|split; [|split; [|split]]].
  - unfold isUpToDate. intros [-> | ->]; simpl; [reflexivity|].
    now rewrite orb_true_r.
  - unfold isUpToDate, getPatternsMaxTime, getPatternsMinTime.
    intros H. destruct (_ || _); [reflexivity|].
    destruct (times fs (Sources t)) as [ss|]; [|reflexivity].
    destruct (IsZero (latest ss)); [reflexivity|].
    destruct (times fs (Generates t)) as [gs|]; [|reflexivity].
    destruct H; discriminate.
  - intros H.
    destruct (times fs (Sources t)) as [ss|es] eqn:Hs;
      destruct (times fs (Generates t)) as [gs|eg] eqn:Hg;
      try (unfold isUpToDate, getPatternsMaxTime, getPatternsMinTime;
           rewrite ?Hs, ?Hg; destruct (_ || _); [reflexivity|];
           try reflexivity; now destruct (IsZero (latest ss))).
    apply (Hzero ss gs); [reflexivity..|].
    unfold matched_times in Hs, Hg.
    destruct H as [H|H]; rewrite H in *; simpl in *.
    + left. now injection Hs as <-.
    + right. now injection Hg as <-.
  - exact Hzero.
  - intros ss gs HS HG Hs Hg Hzs Hzg.
    assert (Hval : fresh t fs = (latest ss <? earliest gs)%Z).
    { unfold isUpToDate, getPatternsMaxTime, getPatternsMinTime.
      rewrite Hs, Hg.
      destruct (Sources t); [congruence|].
      destruct (Generates t); [congruence|]. simpl.
      unfold IsZero, zeroTime, After in *.
      destruct (Z.eqb_spec (latest ss) 0); [congruence|].
      destruct (Z.eqb_spec (earliest gs) 0); [congruence|]. reflexivity. }
    rewrite Hval, Z.ltb_lt.
    assert (Hss : ss <> []) by (intros ->; now apply Hzs).
    assert (Hgs : gs <> []) by (intros ->; now apply Hzg).
    destruct (latest_spec ss Hss) as [Hl1 Hl2].
    destruct (earliest_spec gs Hgs) as [He1 He2].
    split; [reflexivity|]. split.
    + intros Hlt g s Hg' Hs'. specialize (Hl2 s Hs'). specialize (He2 g Hg').
      lia.
    + intros H. now apply H.
Qed.

(** ** Runs *)

Lemma exec_app (s1 s2 : list (move FS)) p w :
  exec (s1 ++ s2) p w = exec s2 (snd (exec s1 p w)) (fst (exec s1 p w)).
Proof.
  revert p w. induction s1 as [|m s1 IH]; intros p w; simpl; [reflexivity|].
  destruct (step _ _ p _) as [w1 p1]. apply IH.
Qed.

Lemma exec_cons (m : move FS) s p w :
  exec (m :: s) p w
  = exec s (snd (step (choice m) (ctx_done m) p (others m w)))
           (fst (step (choice m) (ctx_done m) p (others m w))).
Proof. simpl. now destruct (step _ _ p _). Qed.

Lemma exec_app_eq (s1 s2 : list (move FS)) p w w1 p1 :
  exec s1 p w = (w1, p1) -> exec (s1 ++ s2) p w = exec s2 p1 w1.
Proof. intros H. now rewrite exec_app, H. Qed.

(** A process that has returned stays returned; only the others move. *)
Lemma exec_Ret (s : list (move FS)) e w :
  snd (exec s (Ret e) w) = Ret e.
Proof. revert w. induction s as [|m s IH]; intros w; simpl; auto. Qed.

Lemma exec_Ret_inv (s : list (move FS)) e w w' q :
  exec s (Ret e) w = (w', q) -> q = Ret e.
Proof. intros H. pose proof (exec_Ret s e w) as H'. now rewrite H in H'. Qed.

Lemma step_pbind c ca (p : proc FS) k w :
  is_Ret p = false ->
  step c ca (pbind p k) w
  = (fst (step c ca p w), pbind (snd (step c ca p w)) k).
Proof.
  destruct p as [e|f|us first k0|h]; simpl; try discriminate; intros _.
  - now destruct (f c ca w).
  - destruct (forallb is_Ret us); [reflexivity|].
    now destruct (advance _ us _) as [[[w' us'] u']|].
  - reflexivity.
Qed.

(** A run of [pbind p k] is a run of [p], followed, once [p] has
    returned [e], by a run of [k e] on the rest of the schedule. *)
Lemma exec_pbind (s : list (move FS)) p k w w' q :
  exec s (pbind p k) w = (w', q) ->
  (exists p', exec s p w = (w', p') /\ is_Ret p' = false /\ q = pbind p' k)
  \/ (exists s1 s2 w1 e,
        s = s1 ++ s2 /\ exec s1 p w = (w1, Ret e)
        /\ exec s2 (k e) w1 = (w', q)).
Proof.
  revert p w. induction s as [|m s IH]; intros p w H.
  - simpl in H. injection H as <- <-.
    destruct (is_Ret p) eqn:Hp.
    + right. destruct p; try discriminate. exists [], [], w, e. auto.
    + left. exists p. auto.
  - destruct (is_Ret p) eqn:Hp.
    + right. destruct p; try discriminate.
      exists [], (m :: s), w, e. auto.
    + simpl in H. rewrite step_pbind in H by assumption.
      destruct (step (choice m) (ctx_done m) p (others m w)) as [w1 p1] eqn:E.
      simpl in H. destruct (IH _ _ H) as [(p' & H1 & H2 & H3)|
        (s1 & s2 & w2 & e & -> & H1 & H2)].
      * left. exists p'. simpl. rewrite E. auto.
      * right. exists (m :: s1), s2, w2, e. simpl. rewrite E. auto.
Qed.

(** Conversely, once [p] returns [e], [pbind p k] has become [k e]. *)
Lemma exec_pbind_Ret (s : list (move FS)) p k w w1 e :
  exec s p w = (w1, Ret e) ->
  exists s1 s2 w0,
    s = s1 ++ s2 /\ exec s1 (pbind p k) w = (w0, k e)
    /\ exec s2 (Ret e) w0 = (w1, Ret e).
Proof.
  revert p w. induction s as [|m s IH]; intros p w H.
  - simpl in H. injection H as <- ->. exists [], [], w. auto.
  - destruct (is_Ret p) eqn:Hp.
    + destruct p as [e0| | |]; try discriminate.
      pose proof (exec_Ret_inv _ _ _ _ _ H) as [= <-].
      exists [], (m :: s), w. auto.
    + simpl in H.
      destruct (step (choice m) (ctx_done m) p (others m w)) as [w2 p2] eqn:E.
      destruct (IH _ _ H) as (s1 & s2 & w0 & -> & H1 & H2).
      exists (m :: s1), s2, w0. simpl. rewrite step_pbind, E by assumption.
      auto.
Qed.

(** ** Groups *)

Lemma advance_spec {A} (f : proc FS -> A * proc FS) us i a us' u' :
  advance f us i = Some (a, us', u') ->
  exists l1 u l2,
    us = l1 ++ u :: l2 /\ is_Ret u = false /\ f u = (a, u')
    /\ us' = l1 ++ u' :: l2.
Proof.
  revert i us'. induction us as [|u0 us IH]; intros i us'; simpl;
    [discriminate|].
  assert (Hskip : forall j,
    match advance f us j with
    | Some (a0, rest', u0') => Some (a0, u0 :: rest', u0')
    | None => None
    end = Some (a, us', u') ->
    exists l1 u l2, u0 :: us = l1 ++ u :: l2 /\ is_Ret u = false
                    /\ f u = (a, u') /\ us' = l1 ++ u' :: l2).
  { intros j. destruct (advance f us j) as [[[a0 rest'] u0']|] eqn:E;
      [|discriminate].
    intros [= -> <- ->]. destruct (IH _ _ E) as (l1 & u & l2 & -> & ? & ? & ->).
    exists (u0 :: l1), u, l2. auto. }
  destruct (is_Ret u0) eqn:Hu0; [apply Hskip|].
  destruct i as [|i]; [|apply Hskip].
  destruct (f u0) as [a0 u0'] eqn:E. intros [= -> <- ->].
  exists [], u0, us. auto.
Qed.

Lemma errors_of_app (l1 l2 : list (proc FS)) :
  errors_of (l1 ++ l2) = errors_of l1 ++ errors_of l2.
Proof.
  induction l1 as [|u l1 IH]; simpl; [reflexivity|].
  destruct u as [[e|]| | |]; simpl; now rewrite ?IH.
Qed.

Lemma errors_of_running (u : proc FS) (l : list (proc FS)) :
  is_Ret u = false -> errors_of (u :: l) = errors_of l.
Proof. destruct u; simpl; [discriminate|auto..]. Qed.

Lemma errors_of_nil (us : list (proc FS)) :
  errors_of us = [] -> forallb is_Ret us = true ->
  Forall (fun u => u = Ret None) us.
Proof.
  induction us as [|u us IH]; simpl; [constructor|].
  destruct u as [[e|]| | |]; simpl; try discriminate.
  intros H1 H2. constructor; auto.
Qed.

Lemma unit_view_refl w (u : proc FS) : unit_view w u u.
Proof. exists [], w. reflexivity. Qed.

Lemma unit_view_later w w2 (u u' : proc FS) :
  unit_view w2 u u' -> unit_view w u u'.
Proof.
  intros ([|m sj] & wj & H).
  - injection H as <- <-. apply unit_view_refl.
  - exists (mkMove (fun _ => others m w2) (ctx_done m) (choice m) :: sj), wj.
    exact H.
Qed.

Lemma unit_view_step w c ca w2 (u u1 u' : proc FS) :
  step c ca u w = (w2, u1) -> unit_view w2 u1 u' -> unit_view w u u'.
Proof.
  intros E (sj & wj & H).
  exists (mkMove (fun w => w) ca c :: sj), wj. simpl. now rewrite E.
Qed.

(** One move of a group: either every goroutine has returned and Wait
    hands out the kept error, or one running goroutine moves. *)
Lemma step_group c ca us first k (w w' : World FS) q :
  ginv us first ->
  step c ca (Group us first k) w = (w', q) ->
  (forallb is_Ret us = true /\ w' = w /\ q = k first)
  \/ (forallb is_Ret us = false
      /\ exists us' first',
           q = Group us' first' k /\ ginv us' first'
           /\ length us' = length us
           /\ match first with
              | Some e => first' = Some e
              | None => errors_of us' = match first' with
                                        | Some e => [e]
                                        | None => []
                                        end
              end
           /\ Forall2 (unit_view w) us us').
Proof.
  intros Hg. simpl. destruct (forallb is_Ret us) eqn:Hall.
  - intros [= <- <-]. now left.
  - destruct (advance _ us _) as [[[w1 us1] u1]|] eqn:E.
    + intros [= <- <-]. right. split; [reflexivity|].
      apply advance_spec in E as (l1 & u & l2 & -> & Hu & Hstep & ->).
      exists (l1 ++ u1 :: l2), (record_error first u1).
      unfold ginv in *. rewrite !errors_of_app in *.
      rewrite errors_of_running in Hg by assumption.
      split; [reflexivity|]. split; [|split; [|split]].
      * destruct first as [e|]; simpl.
        -- rewrite in_app_iff in *. destruct Hg; [now left|right].
           destruct u1 as [[e1|]| | |]; simpl; auto.
        -- apply app_eq_nil in Hg as [-> ->].
           destruct u1 as [[e1|]| | |]; simpl; auto.
      * rewrite !length_app. reflexivity.
      * destruct first as [e|]; simpl; [reflexivity|].
        apply app_eq_nil in Hg as [-> ->].
        destruct u1 as [[e1|]| | |]; simpl; auto.
      * apply Forall2_app.
        -- clear. induction l1; constructor; auto using unit_view_refl.
        -- constructor.
           ++ eapply unit_view_step; [exact Hstep|apply unit_view_refl].
           ++ clear. induction l2; constructor; auto using unit_view_refl.
    + intros [= <- <-]. right. split; [reflexivity|].
      exists us, first. split; [reflexivity|].
      split; [assumption|]. split; [reflexivity|]. split.
      * unfold ginv in Hg. destruct first; auto.
      * clear. induction us; constructor; auto using unit_view_refl.
Qed.

(** The scheduler is adequate: while some goroutine of a group is running,
    a move of the group is a move of a running goroutine, and every
    running goroutine can be chosen, with any choice passed down. *)
Lemma advance_running {A} (f : proc FS -> A * proc FS) us i :
  (i < running us)%nat -> is_Some (advance f us i).
Proof.
  unfold running. revert i. induction us as [|u us IH]; intros i; simpl;
    [lia|].
  destruct (is_Ret u); simpl.
  - intros Hi. destruct (IH _ Hi) as [[[a us'] u'] ->]. eauto.
  - destruct i as [|i]; [destruct (f u); eauto|].
    intros Hi. destruct (IH i) as [[[a us'] u'] ->]; [lia|eauto].
Qed.

Lemma running_pos (us : list (proc FS)) :
  forallb is_Ret us = false -> (0 < running us)%nat.
Proof.
  unfold running. induction us as [|u us IH]; simpl; [discriminate|].
  destruct (is_Ret u); simpl; [exact IH | lia].
Qed.

Lemma step_group_moves c ca us first k (w : World FS) :
  forallb is_Ret us = false ->
  exists l1 u l2 w' u',
    us = l1 ++ u :: l2 /\ is_Ret u = false
    /\ step (c / running us) (ca || bool_decide (is_Some first)) u w = (w', u')
    /\ step c ca (Group us first k) w
       = (w', Group (l1 ++ u' :: l2) (record_error first u') k).
Proof.
  intros Hall. pose proof (running_pos _ Hall) as Hpos. simpl. rewrite Hall.
  destruct (advance_running
              (fun u => step (c / running us)
                             (ca || bool_decide (is_Some first)) u w)
              us (c mod running us)) as [[[w' us'] u'] E].
  { apply Nat.mod_upper_bound. lia. }
  rewrite E. apply advance_spec in E as (l1 & u & l2 & ? & ? & ? & ->).
  exists l1, u, l2, w', u'. auto.
Qed.

Lemma choice_any (n j c' : nat) :
  (j < n)%nat -> ((j + c' * n) mod n = j /\ (j + c' * n) / n = c')%nat.
Proof.
  intros H. split.
  - rewrite Nat.Div0.mod_add. now apply Nat.mod_small.
  - rewrite Nat.div_add by lia. rewrite Nat.div_small by assumption. lia.
Qed.

Lemma unit_view_trans w1 w2 (u u1 u2 : proc FS) :
  unit_view w1 u u1 -> unit_view w2 u1 u2 -> unit_view w1 u u2.
Proof.
  intros (sj & wj & H1) H2.
  apply (unit_view_later wj) in H2 as (sj' & wj' & H2).
  exists (sj ++ sj'), wj'. now rewrite (exec_app_eq _ _ _ _ _ _ H1).
Qed.

Lemma Forall2_unit_view_trans w0 w1 w2 (us us1 us2 : list (proc FS)) :
  Forall2 (unit_view w1) us us1 -> Forall2 (unit_view w2) us1 us2 ->
  Forall2 (unit_view w0) us us2.
Proof.
  intros H. revert us2. induction H as [|u u1 us us1 Hu _ IH]; intros us2 H2.
  - inversion H2. constructor.
  - inversion H2 as [|? u2 ? us2' Hu2 H2']; subst. constructor; [|auto].
    apply (unit_view_later w0 w1). eapply unit_view_trans; eauto.
Qed.

Lemma first_seen_Ret (s : list (move FS)) e w : first_seen s (Ret e) w = None.
Proof. revert w. induction s as [|m s IH]; intros w; simpl; auto. Qed.

(** A run of the group of runDeps.  The error it keeps, and hands out
    when every goroutine has returned, is the first failure seen. *)
Lemma group_run (s : list (move FS)) us first w w' q :
  ginv us first ->
  exec s (Group us first Ret) w = (w', q) ->
  let F := match first with
           | Some e => Some e
           | None => first_seen s (Group us first Ret) w
           end in
  exists us',
    ginv us' F /\ length us' = length us /\ Forall2 (unit_view w) us us'
    /\ (q = Group us' F Ret
        \/ (q = Ret F /\ forallb is_Ret us' = true
            /\ exists s1 m s2 wj,
                 s = s1 ++ m :: s2
                 /\ exec s1 (Group us first Ret) w = (wj, Group us' F Ret))).
Proof.
  revert us first w. induction s as [|m s IH]; intros us first w Hg H F.
  - simpl in H. injection H as <- <-. exists us.
    assert (HF : F = first).
    { subst F. destruct first; [reflexivity|]. simpl.
      unfold ginv in Hg. now rewrite Hg. }
    rewrite HF. split; [assumption|]. split; [reflexivity|]. split; [|now left].
    clear. induction us; constructor; auto using unit_view_refl.
  - rewrite exec_cons in H.
    destruct (step _ _ (Group us first Ret) (others m w)) as [w1 p1] eqn:E.
    simpl fst in H. simpl snd in H.
    assert (HF : F = match first with
                     | Some e => Some e
                     | None => first_seen s p1 w1
                     end).
    { subst F. destruct first; [reflexivity|].
      cbn [first_seen failures]. unfold ginv in Hg. rewrite Hg.
      now rewrite E. }
    destruct (step_group _ _ _ _ _ _ _ _ Hg E) as
      [(Hall & -> & ->)|(Hall & us1 & first1 & -> & Hg1 & Hlen & Hfirst & Hview)].
    + apply exec_Ret_inv in H as ->. exists us.
      assert (HF' : F = first).
      { rewrite HF. destruct first; [reflexivity|]. apply first_seen_Ret. }
      rewrite HF'. split; [assumption|]. split; [reflexivity|].
      split.
      { clear. induction us; constructor; auto using unit_view_refl. }
      right. split; [reflexivity|]. split; [assumption|].
      exists [], m, s, w. auto.
    + destruct (IH _ _ _ Hg1 H) as (us' & Hg' & Hlen' & Hview' & Hq).
      assert (HF' : match first1 with
                    | Some e => Some e
                    | None => first_seen s (Group us1 first1 Ret) w1
                    end = F).
      { rewrite HF. destruct first as [e|]; [now rewrite Hfirst|].
        destruct first1 as [e1|]; [|reflexivity].
        destruct s; simpl; now rewrite Hfirst. }
      rewrite HF' in *. exists us'. split; [assumption|].
      split; [congruence|]. split.
      { eapply Forall2_unit_view_trans; eauto. }
      destruct Hq as [Hq|(Hq & Hall' & s1 & m1 & s2 & wj & -> & Hj)];
        [now left|right].
      split; [assumption|]. split; [assumption|].
      exists (m :: s1), m1, s2, wj. split; [reflexivity|].
      rewrite exec_cons, E. exact Hj.
Qed.

Lemma first_seen_app (s s2 : list (move FS)) p w e :
  first_seen s p w = Some e -> first_seen (s ++ s2) p w = Some e.
Proof.
  revert p w. induction s as [|m s IH]; intros p w.
  - simpl. destruct (failures p) eqn:E; [discriminate|].
    intros [= ->]. destruct s2; simpl; now rewrite E.
  - simpl. destruct (failures p); [|auto].
    destruct (step _ _ p _). apply IH.
Qed.

(** ** Tasks *)

Section TaskFacts.

Context (Tasks : gmap string Task) (Force : bool).
Context (rt : string -> proc FS).

Local Abbreviation hv := handleVariables.
Local Abbreviation rv := ReplaceVariables.
Local Abbreviation unit_ := (dep_unit FS rv rt).
Local Abbreviation runDeps_ := (runDeps FS hv rv rt).
Local Abbreviation runCommand_ := (runCommand FS hv rv RunCommand rt).
Local Abbreviation runCmds_ := (runCmds FS hv rv RunCommand rt).
Local Abbreviation next_cmd_ := (next_cmd FS hv rv RunCommand rt).
Local Abbreviation afterDeps_ :=
  (afterDeps FS hv rv RunCommand glob modTime Force rt).
Local Abbreviation body_ :=
  (RunTask_body FS hv rv RunCommand glob modTime Tasks Force rt).
Local Abbreviation cmds_run_ := (cmds_run FS hv rv RunCommand rt).
Local Abbreviation after_run_ :=
  (after_run FS hv rv RunCommand glob modTime Force rt).
Local Abbreviation task_run_ :=
  (task_run FS hv rv RunCommand glob modTime Force rt).
Local Abbreviation deps_succeeded_ := (deps_succeeded FS rv rt).

Lemma errors_of_units vars ds : errors_of (map (unit_ vars) ds) = [].
Proof. induction ds as [|d ds IH]; [reflexivity | exact IH]. Qed.

Lemma unit_nil vars d (sj : list (move FS)) w wj :
  exec sj (unit_ vars d) w = (wj, Ret None) ->
  exists dep s wa, rv d vars = Ok dep /\ exec s (rt dep) wa = (wj, Ret None).
Proof.
  destruct sj as [|m sj]; [discriminate|].
  rewrite exec_cons. simpl.
  destruct (rv d vars) as [dep|e]; simpl.
  - intros H. eauto.
  - intros H. apply exec_Ret_inv in H. discriminate.
Qed.

(** A run of runDeps: one look at the variables, then the group. *)
Lemma runDeps_run t (s : list (move FS)) w w' q :
  exec s (runDeps_ t) w = (w', q) ->
  (s = [] /\ w' = w /\ q = runDeps_ t)
  \/ exists m s', s = m :: s'
     /\ ((exists e, hv t (others m w) = Err e /\ q = Ret (Some e))
         \/ exists vars us',
              hv t (others m w) = Ok vars
              /\ let F := first_seen s'
                            (Group (map (unit_ vars) (Deps t)) None Ret)
                            (others m w) in
                 ginv us' F /\ length us' = length (Deps t)
                 /\ Forall2 (unit_view (others m w))
                            (map (unit_ vars) (Deps t)) us'
                 /\ (q = Group us' F Ret
                     \/ (q = Ret F /\ forallb is_Ret us' = true
                         /\ exists s1 mj s2 wj,
                              s' = s1 ++ mj :: s2
                              /\ exec (m :: s1) (runDeps_ t) w
                                 = (wj, Group us' F Ret)))).
Proof.
  destruct s as [|m s'].
  - intros [= <- <-]. now left.
  - right. exists m, s'. split; [reflexivity|].
    rewrite exec_cons in H. simpl in H.
    destruct (hv t (others m w)) as [vars|e] eqn:Ehv; simpl in H.
    + right. exists vars.
      assert (Hg : ginv (map (unit_ vars) (Deps t)) None)
        by apply errors_of_units.
      destruct (group_run _ _ _ _ _ _ Hg H) as (us' & ? & Hlen & ? & Hq).
      exists us'. split; [reflexivity|]. simpl.
      rewrite length_map in Hlen. do 3 (split; [assumption|]).
      destruct Hq as [?|(? & ? & s1 & mj & s2 & wj & ? & Hj)]; [now left|].
      right. do 2 (split; [assumption|]).
      exists s1, mj, s2, wj. split; [assumption|]. now rewrite Ehv.
    + left. exists e. split; [reflexivity|]. now apply exec_Ret_inv in H.
Qed.

(** runDeps returns nil only from a group whose goroutines, one for each
    dependency, have all returned nil. *)
Lemma runDeps_nil t (s : list (move FS)) w w1 :
  exec s (runDeps_ t) w = (w1, Ret None) ->
  exists m s1 mj s2 vars us wj,
    s = m :: s1 ++ mj :: s2
    /\ hv t (others m w) = Ok vars
    /\ exec (m :: s1) (runDeps_ t) w = (wj, Group us None Ret)
    /\ length us = length (Deps t)
    /\ Forall (fun u => u = Ret None) us
    /\ deps_succeeded_ t vars.
Proof.
  intros H. destruct (runDeps_run _ _ _ _ _ H) as
    [(_ & _ & ?)|(m & s' & -> & [(e & _ & ?)|(vars & us' & Ehv & HF)])];
    try discriminate.
  simpl in HF. destruct HF as (Hg & Hlen & Hview & [?|(HF & Hall & Hj)]);
    [discriminate|].
  injection HF as HF. rewrite <- HF in *. unfold ginv in Hg.
  destruct Hj as (s1 & mj & s2 & wj & -> & Hj).
  pose proof (errors_of_nil _ Hg Hall) as Hnil.
  exists m, s1, mj, s2, vars, us', wj.
  do 5 (split; [reflexivity || assumption|]).
  unfold deps_succeeded. clear - Hview Hnil.
  revert us' Hview Hnil. induction (Deps t) as [|d ds IH]; intros us' Hview Hnil;
    [constructor|].
  inversion Hview as [|? u' ? us'' Hd Hds]; subst.
  inversion Hnil; subst. constructor; [|eauto].
  destruct Hd as (sj & wj & Hd). apply unit_nil in Hd as (dep & s & wa & ? & ?).
  eauto 6.
Qed.

Lemma runCmds_shape t name idx (s : list (move FS)) w w' q :
  exec s (runCmds_ t name idx) w = (w', q) -> cmds_run_ t name idx s w w' q.
Proof.
  revert s w. induction idx as [|i rest IH]; intros s w H.
  - simpl in H. pose proof (exec_Ret_inv _ _ _ _ _ H) as ->.
    now constructor.
  - change (runCmds_ t name (i :: rest))
      with (pbind (runCommand_ t i) (next_cmd_ t name rest)) in H.
    apply exec_pbind in H as
      [(p' & H1 & H2 & ->)|(s1 & s2 & w1 & [e|] & -> & H1 & H2)].
    + now constructor.
    + simpl in H2. pose proof (exec_Ret_inv _ _ _ _ _ H2) as ->.
      eapply cmds_failed; eauto.
    + eapply cmds_next; eauto.
Qed.

Lemma afterDeps_shape t name (s : list (move FS)) w w' q :
  exec s (afterDeps_ t name None) w = (w', q) -> after_run_ t name s w w' q.
Proof.
  assert (HF : Force = true \/ Force = false) by (destruct Force; auto).
  destruct HF as [HF|HF].
  - intros H. apply after_forced; [assumption|].
    apply runCmds_shape. unfold afterDeps in H. now rewrite HF in H.
  - destruct s as [|m s].
    + intros [= <- <-]. now apply after_checking.
    + rewrite exec_cons. unfold afterDeps at 1 2. rewrite HF. simpl.
      destruct (isUpToDate _ _ _ t _) eqn:Efresh; intros H.
      * now apply after_fresh.
      * apply after_stale; [reflexivity|assumption|]. now apply runCmds_shape.
Qed.

Lemma body_shape t name (s : list (move FS)) w w' q :
  Tasks !! name = Some t ->
  exec s (body_ name) w = (w', q) -> task_run_ t name s w w' q.
Proof.
  unfold RunTask_body. intros -> H.
  apply exec_pbind in H as
    [(p' & H1 & H2 & ->)|(s1 & s2 & w1 & [e|] & -> & H1 & H2)].
  - now constructor.
  - simpl in H2. pose proof (exec_Ret_inv _ _ _ _ _ H2) as ->.
    eapply task_deps_failed; eauto.
  - eapply task_after; eauto. now apply afterDeps_shape.
Qed.

(** Once runDeps has returned an error, RunTask has returned it too. *)
Lemma body_deps_failed t name (s s' : list (move FS)) w w1 e :
  Tasks !! name = Some t ->
  exec s (runDeps_ t) w = (w1, Ret (Some e)) ->
  exec (s ++ s') (body_ name) w = exec s' (Ret (Some e)) w1.
Proof.
  unfold RunTask_body. intros -> H.
  destruct (exec_pbind_Ret _ _ (afterDeps_ t name) _ _ _ H)
    as (s1 & s2 & w0 & -> & H1 & H2).
  rewrite <- app_assoc, (exec_app_eq _ _ _ _ _ _ H1). simpl.
  now rewrite (exec_app_eq _ _ _ _ _ _ H2).
Qed.

(** The error runDeps returns is the first failure seen in its group. *)
Lemma runDeps_first t m (s : list (move FS)) w w1 rd vars :
  hv t (others m w) = Ok vars ->
  exec (m :: s) (runDeps_ t) w = (w1, Ret rd) ->
  rd = first_seen s (Group (map (unit_ vars) (Deps t)) None Ret) (others m w).
Proof.
  intros Ehv H. destruct (runDeps_run _ _ _ _ _ H) as
    [(? & _)|(m' & s' & [= <- <-] & [(e & Ee & _)|(vars' & us' & Ehv' & HF)])];
    [discriminate|congruence|].
  rewrite Ehv in Ehv'. injection Ehv' as <-. simpl in HF.
  destruct HF as (_ & _ & _ & [?|[HF _]]); [discriminate|]. now injection HF.
Qed.

(** While the group waits, the error it keeps is the first failure seen. *)
Lemma runDeps_kept t m (s : list (move FS)) w w1 us first vars :
  hv t (others m w) = Ok vars ->
  exec (m :: s) (runDeps_ t) w = (w1, Group us first Ret) ->
  first
  = first_seen s (Group (map (unit_ vars) (Deps t)) None Ret) (others m w).
Proof.
  intros Ehv H. destruct (runDeps_run _ _ _ _ _ H) as
    [(? & _)|(m' & s' & [= <- <-] & [(e & Ee & _)|(vars' & us' & Ehv' & HF)])];
    [discriminate|congruence|].
  rewrite Ehv in Ehv'. injection Ehv' as <-. simpl in HF.
  destruct HF as (_ & _ & _ & [HF|[? _]]); [|discriminate]. now injection HF.
Qed.

(** When every goroutine has returned, the next move is the return of
    g.Wait(), with the error kept. *)
Lemma group_join (us : list (proc FS)) first k m w :
  forallb is_Ret us = true ->
  exec [m] (Group us first k) w = (others m w, k first).
Proof. intros H. simpl. now rewrite H. Qed.

Lemma runDeps_seen t m (s : list (move FS)) w w1 q vars e :
  hv t (others m w) = Ok vars ->
  exec (m :: s) (runDeps_ t) w = (w1, q) ->
  In e (failures q) ->
  exists e1,
    first_seen s (Group (map (unit_ vars) (Deps t)) None Ret) (others m w)
    = Some e1.
Proof.
  intros Ehv H Hin. destruct (runDeps_run _ _ _ _ _ H) as
    [(? & _)|(m' & s' & [= <- <-] & [(e0 & Ee & _)|(vars' & us' & Ehv' & HF)])];
    [discriminate|congruence|].
  rewrite Ehv in Ehv'. injection Ehv' as <-. simpl in HF.
  destruct HF as (Hg & _ & _ & [->|[-> _]]); [|destruct Hin].
  simpl in Hin. unfold ginv in Hg.
  destruct (first_seen s _ _) as [e1|]; [eauto|].
  rewrite Hg in Hin. destruct Hin.
Qed.

(** The first move of a command that is a sub-task invocation. *)
Lemma runCommand_subtask t i ci vars rest c ca (w : World FS) :
  Cmds t !! i = Some ci ->
  hv t w = Ok vars ->
  rv ci vars = Ok ("^" +:+ rest) ->
  step c ca (runCommand_ t i) w = (w, rt rest).
Proof.
  intros Hi Ehv Erv. unfold runCommand, look. cbn [step].
  rewrite Ehv. cbn [try]. rewrite Hi, Erv. cbn [try].
  now rewrite HasPrefix_caret, TrimPrefix_caret.
Qed.

End TaskFacts.

Section Claims.

Context (Tasks : gmap string Task) (Force : bool).

Local Abbreviation hv := handleVariables.
Local Abbreviation rv := ReplaceVariables.
Local Abbreviation RT :=
  (RunTask FS hv rv RunCommand glob modTime Tasks Force).
Local Abbreviation unit_ f := (dep_unit FS rv (RT f)).
Local Abbreviation runDeps_ f := (runDeps FS hv rv (RT f)).
Local Abbreviation runCommand_ f := (runCommand FS hv rv RunCommand (RT f)).
Local Abbreviation task_run_ f :=
  (task_run FS hv rv RunCommand glob modTime Force (RT f)).
Local Abbreviation deps_succeeded_ f := (deps_succeeded FS rv (RT f)).

(** C1.  A run of RunTask on a task of the registry has the shape
    [task_run]: it is a run of runDeps; if runDeps returns an error
    nothing more is done; if it returns nil, the commands are run by
    index, each from its first move to its return, the first starting in
    the world where runDeps returned.  And runDeps returns nil only from a
    group that holds one goroutine for each dependency, all of which have
    returned nil: every dependency was substituted and run by RunTask to a
    nil return. *)
Theorem RunTask_order (f : nat) (name : string) (t : Task)
  (s : list (move FS)) (w w' : World FS) (q : proc FS) :
  Tasks !! name = Some t ->
  exec s (RT (S f) name) w = (w', q) ->
  task_run_ f t name s w w' q
  /\ forall s1 w0 w1,
       exec s1 (runDeps_ f t) w0 = (w1, Ret None) ->
       exists m s1a mj s1b vars us wj,
         s1 = m :: s1a ++ mj :: s1b
         /\ hv t (others m w0) = Ok vars
         /\ exec (m :: s1a) (runDeps_ f t) w0 = (wj, Group us None Ret)
         /\ length us = length (Deps t)
         /\ Forall (fun u => u = Ret None) us
         /\ deps_succeeded_ f t vars.
Proof.
  intros Ht H. split.
  - now apply (body_shape Tasks Force (RT f)).
  - intros s1 w0 w1. apply runDeps_nil.
Qed.

(** C2.  If, in a run of runDeps, some dependency has returned an error,
    then a first failure [e1] has been seen.  As soon as every dependency
    goroutine has returned, the next move makes runDeps return [e1], and
    RunTask return [e1] at that same move.  In every continuation of the
    run in which runDeps has returned, it has returned [e1], and RunTask is
    in the state "returned [e1]" in the very world where runDeps
    returned: none of the task's commands is run, whatever the other
    dependencies do. *)
Theorem RunTask_deps_failure (f : nat) (name : string) (t : Task)
  (vars : gmap string string) (m : move FS) (s : list (move FS))
  (w w1 : World FS) (q : proc FS) (e : error) :
  Tasks !! name = Some t ->
  hv t (others m w) = Ok vars ->
  exec (m :: s) (runDeps_ f t) w = (w1, q) ->
  In e (failures q) ->
  exists e1,
    first_seen s (Group (map (unit_ f vars) (Deps t)) None Ret) (others m w)
    = Some e1
    /\ (forall s2 w2 us first m',
          exec (m :: s ++ s2) (runDeps_ f t) w = (w2, Group us first Ret) ->
          forallb is_Ret us = true ->
          exec ((m :: s ++ s2) ++ [m']) (runDeps_ f t) w
          = (others m' w2, Ret (Some e1))
          /\ exec ((m :: s ++ s2) ++ [m']) (RT (S f) name) w
             = (others m' w2, Ret (Some e1)))
    /\ (forall s2 w2 rd,
          exec (m :: s ++ s2) (runDeps_ f t) w = (w2, Ret rd) ->
          rd = Some e1
          /\ forall s3,
               exec ((m :: s ++ s2) ++ s3) (RT (S f) name) w
               = exec s3 (Ret (Some e1)) w2).
Proof.
  intros Ht Ehv H Hin.
  destruct (runDeps_seen (RT f) _ _ _ _ _ _ _ _ Ehv H Hin) as [e1 He1].
  exists e1. split; [assumption|]. split.
  - intros s2 w2 us first m' H2 Hall.
    assert (Hfirst : first = Some e1).
    { rewrite (runDeps_kept (RT f) _ _ _ _ _ _ _ _ Ehv H2).
      now apply first_seen_app. }
    subst first.
    assert (Hret : exec ((m :: s ++ s2) ++ [m']) (runDeps_ f t) w
                   = (others m' w2, Ret (Some e1))).
    { rewrite (exec_app_eq _ _ _ _ _ _ H2). now apply group_join. }
    split; [assumption|].
    pose proof (body_deps_failed Tasks Force (RT f) t name _ [] _ _ _ Ht Hret)
      as Hb.
    now rewrite app_nil_r in Hb.
  - intros s2 w2 rd H2.
    assert (Hrd : rd = Some e1).
    { rewrite (runDeps_first (RT f) _ _ _ _ _ _ _ Ehv H2).
      now apply first_seen_app. }
    split; [assumption|]. intros s3. subst rd.
    now apply (body_deps_failed Tasks Force (RT f) t name).
Qed.

(** C5.  A command whose substituted text is '^' followed by [rest]: the
    first move of runCommand leaves the world as it is, and from there
    runCommand is RunTask on [rest]: same moves, same effects, same
    returned error.  execext.RunCommand is not called for it. *)
Theorem runCommand_subtask_is_RunTask (f : nat) (t : Task) (i : nat)
  (ci rest : string) (vars : gmap string string) (m : move FS)
  (s : list (move FS)) (w : World FS) :
  Cmds t !! i = Some ci ->
  hv t (others m w) = Ok vars ->
  rv ci vars = Ok ("^" +:+ rest) ->
  step (choice m) (ctx_done m) (runCommand_ f t i) (others m w)
  = (others m w, RT f rest)
  /\ exec (m :: s) (runCommand_ f t i) w = exec s (RT f rest) (others m w).
Proof.
  intros Hi Ehv Erv.
  pose proof (runCommand_subtask (RT f) t i ci vars rest
                (choice m) (ctx_done m) _ Hi Ehv Erv) as E.
  split; [assumption|]. now rewrite exec_cons, E.
Qed.

(** C9.  For a command dispatched as a sub-task invocation, the [Dir],
    [Set] and [Env] of the invoking task play no part: with any other
    values in their place (even a [Dir] or an [Env] whose substitution
    fails), runCommand makes the same moves with the same effects, and its
    first move leaves the environment, the files and the terminal as they
    were. *)
Theorem runCommand_subtask_frame (f : nat) (t : Task) (i : nat)
  (ci rest : string) (vars : gmap string string) (dir set : string)
  (env : option (gmap string string)) (m : move FS) (s : list (move FS))
  (w : World FS) :
  Cmds t !! i = Some ci ->
  hv t (others m w) = Ok vars ->
  hv (with_settings t dir set env) (others m w) = Ok vars ->
  rv ci vars = Ok ("^" +:+ rest) ->
  exec (m :: s) (runCommand_ f (with_settings t dir set env) i) w
  = exec (m :: s) (runCommand_ f t i) w
  /\ fst (step (choice m) (ctx_done m)
               (runCommand_ f (with_settings t dir set env) i) (others m w))
     = others m w.
Proof.
  intros Hi Ehv Ehv' Erv.
  pose proof (runCommand_subtask (RT f) t i ci vars rest
                (choice m) (ctx_done m) _ Hi Ehv Erv) as E.
  pose proof (runCommand_subtask (RT f) (with_settings t dir set env) i ci
                vars rest (choice m) (ctx_done m) _ Hi Ehv' Erv) as E'.
  split; [|now rewrite E'].
  now rewrite !exec_cons, E, E'.
Qed.

(** C4 (amended).  A command of a task with a non-empty [Set] that is run
    by the shell: its output goes to a buffer, and the terminal shows
    neither the command nor its output.  If the command fails, runCommand
    returns its error and the environment is left alone.  If it succeeds,
    the next move calls os.Setenv with [Set] and the output trimmed of
    white space at both ends.  An output of "hello" and a newline gives
    "hello", which is then the value of the variable whenever [Set] and the
    value are acceptable to Setenv. *)
Theorem runCommand_Set (f : nat) (t : Task) (i : nat) (ci c dir text : string)
  (vars : gmap string string) (envs : option (list string)) (fs' : FS)
  (err : option error) (m1 m2 m3 m4 : move FS) (w : World FS) :
  Set_ t <> "" ->
  Cmds t !! i = Some ci ->
  let w1 := others m1 w in
  hv t w1 = Ok vars ->
  rv ci vars = Ok c ->
  HasPrefix c "^" = false ->
  rv (Dir t) vars = Ok dir ->
  let w2 := others m2 w1 in
  getEnviron FS rv (choice m2) t vars w2 = Ok envs ->
  let w3 := others m3 w2 in
  let opts := mkOpts (ctx_done m3) c dir envs os_Stdin buff os_Stderr in
  RunCommand opts w3 = (fs', text, err) ->
  let w3' := mkWorld (environ w3) fs' (trace w3 ++ [Spawn opts]) in
  let w4 := others m4 w3' in
  exec [m1; m2; m3] (runCommand_ f t i) w
  = (w3', match err with
          | Some e => Ret (Some e)
          | None => assign FS (Set_ t) text
          end)
  /\ (err = None ->
      exec [m1; m2; m3; m4] (runCommand_ f t i) w
      = (mkWorld (Setenv (Set_ t) (TrimSpace text) (environ w4))
                 (files w4) (trace w4),
         Ret None))
  /\ TrimSpace ("hello" +:+ LF) = "hello"
  /\ (setenv_ok (Set_ t) (TrimSpace text) = true ->
      Getenv (Set_ t) (Setenv (Set_ t) (TrimSpace text) (environ w4))
      = Some (TrimSpace text)).
Proof.
  intros HSet Hi w1 Ehv Erv Hpre Edir w2 Eenv w3 opts Erun w3' w4.
  assert (H3 : exec [m1; m2; m3] (runCommand_ f t i) w
               = (w3', match err with
                       | Some e => Ret (Some e)
                       | None => assign FS (Set_ t) text
                       end)).
  { unfold runCommand, look, run. simpl. fold w1. rewrite Ehv. simpl.
    rewrite Hi, Erv. simpl. rewrite Hpre, Edir. simpl. fold w2.
    rewrite Eenv. simpl.
    destruct (String.eqb_spec (Set_ t) ""); [contradiction|].
    simpl. fold w3. fold opts. rewrite Erun. reflexivity. }
  split; [exact H3|].
  split; [|split; [reflexivity | apply Getenv_Setenv]].
  intros ->.
  change [m1; m2; m3; m4] with ([m1; m2; m3] ++ [m4]).
  rewrite (exec_app_eq _ _ _ _ _ _ H3). reflexivity.
Qed.

End Claims.

(** ** The driver *)

Section Driver.

Context (readTaskfile : World FS -> result (gmap string Task)).
Context (HasCyclicDep : gmap string Task -> bool).
Context (WatchTasks : gmap string Task -> list string -> proc FS).
Context (Force Watch : bool).

Local Abbreviation Run_ :=
  (Run FS handleVariables ReplaceVariables RunCommand glob modTime
       readTaskfile HasCyclicDep WatchTasks Force Watch).
Local Abbreviation Run_args_ :=
  (Run_args FS handleVariables ReplaceVariables RunCommand glob modTime
            readTaskfile HasCyclicDep WatchTasks Force Watch).
Local Abbreviation Run_loaded_ :=
  (Run_loaded FS handleVariables ReplaceVariables RunCommand glob modTime
              HasCyclicDep WatchTasks Force Watch).

Lemma Run_opening fuel args m0 (s : list (move FS)) w :
  exec (opening FS args m0 ++ s) (Run_ fuel args) w
  = exec s (Run_args_ fuel (requested args)) (noticed FS args m0 w).
Proof.
  unfold Run, opening, requested, noticed.
  destruct (length args =? 0)%nat; reflexivity.
Qed.

Lemma Run_args_loaded fuel args tasks m1 (s : list (move FS)) w :
  readTaskfile (others m1 w) = Ok tasks ->
  exec (m1 :: s) (Run_args_ fuel args) w
  = exec s (Run_loaded_ tasks fuel args) (others m1 w).
Proof. intros E. unfold Run_args, look. simpl. now rewrite E. Qed.

(** C8.  When the cycle detector reports a cycle in the registry just
    read, Run writes the fatal line and the process exits: apart from the
    notice for an empty argument list, that line is all Run has done; the
    environment and the files are as the others left them, and RunTask
    was not called (the fuel plays no part). *)
Theorem Run_cyclic (fuel : nat) (args : list string)
  (tasks : gmap string Task) (m0 m1 m2 : move FS) (w : World FS) :
  let w1 := others m1 (noticed FS args m0 w) in
  readTaskfile w1 = Ok tasks ->
  HasCyclicDep tasks = true ->
  exec (opening FS args m0 ++ [m1; m2]) (Run_ fuel args) w
  = (say [Fatal "Cyclic dependency detected"] (others m2 w1), Halt Exit1).
Proof.
  intros w1 Eread Hcyc.
  rewrite Run_opening, (Run_args_loaded _ _ tasks) by assumption.
  unfold Run_loaded. rewrite Hcyc. reflexivity.
Qed.

(** C7 (amended).  When some requested name has no entry in the registry,
    Run prints the not-found error for the first such name, prints the
    list of existing tasks, and returns: no requested task is run. *)
Theorem Run_missing (fuel : nat) (args : list string)
  (tasks : gmap string Task) (a : string) (m0 m1 m2 m3 : move FS)
  (w : World FS) :
  let w1 := others m1 (noticed FS args m0 w) in
  readTaskfile w1 = Ok tasks ->
  HasCyclicDep tasks = false ->
  find (missing tasks) (requested args) = Some a ->
  tasks !! a = None
  /\ exec (opening FS args m0 ++ [m1; m2; m3]) (Run_ fuel args) w
     = (say [ExistingTasksHelp]
          (others m3 (say [Print (taskNotFoundError a)] (others m2 w1))),
        Ret None).
Proof.
  intros w1 Eread Hcyc Hfind. split.
  - apply find_some in Hfind as [_ Hm]. unfold missing in Hm.
    now destruct (tasks !! a).
  - rewrite Run_opening, (Run_args_loaded _ _ tasks) by assumption.
    unfold Run_loaded. rewrite Hcyc, Hfind. reflexivity.
Qed.

End Driver.

Lemma pbind_running (p : proc FS) k :
  is_Ret p = false -> is_Ret (pbind p k) = false.
Proof. now destruct p. Qed.

(** The run of the commands has returned nil only when every one of them
    has been run, by runCommand, to a nil return. *)
Lemma cmds_run_all rt t name idx (s : list (move FS)) w w' q :
  cmds_run FS handleVariables ReplaceVariables RunCommand rt t name idx
           s w w' q ->
  q = Ret None ->
  Forall (fun i =>
            exists sa wa wb,
              exec sa (runCommand FS handleVariables ReplaceVariables
                         RunCommand rt t i) wa
              = (wb, Ret None))
         idx.
Proof.
  intros Hrun.
  induction Hrun as [s w w' _|i rest s w w' q0 _ Hq0
                    |i rest s1 s2 w w1 w' e _ _
                    |i rest s1 s2 w w1 w' q0 H1 _ IH]; intros Eq.
  - constructor.
  - apply (pbind_running _ (next_cmd FS handleVariables ReplaceVariables
                              RunCommand rt t name rest)) in Hq0.
    rewrite Eq in Hq0. discriminate.
  - discriminate.
  - constructor; [eauto | auto].
Qed.

(** C6.  With Force set the up-to-date skip is off for every call of
    RunTask, whatever the task and the depth of the call.  RunTask is the
    same process whatever the file system says (any glob, any modification
    times): isUpToDate is not consulted.  And every run of RunTask on a
    task of the registry is a run of runDeps and, once runDeps has
    returned nil, the run of the commands by index, the first starting in
    the very world in which runDeps returned: the commands are never
    skipped.  In particular, when RunTask has returned nil, every command
    of the task has been run by runCommand to a nil return. *)
Theorem Force_disables_freshness
  (glob' : FS -> string -> result (list string))
  (modTime' : FS -> string -> result Time)
  (Tasks : gmap string Task) (fuel : nat) (name : string) (t : Task)
  (s : list (move FS)) (w w' : World FS) (q : proc FS) :
  Tasks !! name = Some t ->
  exec s (RunTask FS handleVariables ReplaceVariables RunCommand glob modTime
            Tasks true (S fuel) name) w = (w', q) ->
  let rt := RunTask FS handleVariables ReplaceVariables RunCommand
              glob modTime Tasks true fuel in
  RunTask FS handleVariables ReplaceVariables RunCommand glob modTime
          Tasks true (S fuel)
  = RunTask FS handleVariables ReplaceVariables RunCommand glob' modTime'
            Tasks true (S fuel)
  /\ ((exists q0,
         exec s (runDeps FS handleVariables ReplaceVariables rt t) w = (w', q0)
         /\ is_Ret q0 = false /\ is_Ret q = false)
      \/ (exists e s1 s2 w1,
            s = s1 ++ s2
            /\ exec s1 (runDeps FS handleVariables ReplaceVariables rt t) w
               = (w1, Ret (Some e))
            /\ q = Ret (Some e))
      \/ (exists s1 s2 w1,
            s = s1 ++ s2
            /\ exec s1 (runDeps FS handleVariables ReplaceVariables rt t) w
               = (w1, Ret None)
            /\ cmds_run FS handleVariables ReplaceVariables RunCommand rt
                        t name (seq 0 (length (Cmds t))) s2 w1 w' q))
  /\ (q = Ret None ->
      Forall (fun i =>
                exists sa wa wb,
                  exec sa (runCommand FS handleVariables ReplaceVariables
                             RunCommand rt t i) wa
                  = (wb, Ret None))
             (seq 0 (length (Cmds t)))).
Proof.
  intros Ht Hs rt.
  assert (Hsame : forall f,
            RunTask FS handleVariables ReplaceVariables RunCommand
                    glob modTime Tasks true f
            = RunTask FS handleVariables ReplaceVariables RunCommand
                      glob' modTime' Tasks true f).
  { induction f as [|f IH]; [reflexivity|]. simpl. rewrite IH. reflexivity. }
  split; [apply Hsame|].
  pose proof (body_shape Tasks true rt t name s w w' q Ht Hs) as Hsh.
  inversion Hsh as [s0 w0 w0' q0 Hq Hrun|s1 s2 w0 w1 w0' e H1 H2
                   |s1 s2 w0 w1 w0' q0 H1 Hafter]; subst.
  - pose proof (pbind_running _ (afterDeps FS handleVariables ReplaceVariables
                                   RunCommand glob modTime true rt t name)
                  Hrun) as Hq0.
    split; [left; eauto|].
    intros Eq. rewrite Eq in Hq0. discriminate.
  - split; [right; left; exists e, s1, s2, w1; auto|]. discriminate.
  - inversion Hafter as [? ? ? ? _ Hcmds| | |]; subst; try discriminate.
    split; [right; right; exists s1, s2, w1; auto|].
    intros ->. now apply (cmds_run_all rt t name _ s2 w1 w' (Ret None)).
Qed.

(** * Further properties of task.go *)

(** ** What every action of a process respects *)

Section Always.

Context (R : bool -> World FS -> World FS -> Prop) (H : halt -> Prop).
Context (R_refl : forall ca w, R ca w w).
Context (R_inner : forall ca b w w', R (ca || b) w w' -> R ca w w').

Lemma always_step (p : proc FS) :
  always R H p ->
  forall c ca w,
    R ca w (fst (step c ca p w)) /\ always R H (snd (step c ca p w)).
Proof.
  induction 1 as [e|h Hh|f HR Hf IHf|us first k Hus IHus Hk IHk];
    intros c ca w; simpl.
  - split; [apply R_refl | constructor].
  - split; [apply R_refl | now constructor].
  - split; [apply HR | apply Hf].
  - destruct (forallb is_Ret us); [split; [apply R_refl | apply Hk]|].
    destruct (advance _ us _) as [[[w' us'] u']|] eqn:E; simpl.
    + apply advance_spec in E as (l1 & u & l2 & -> & _ & Hstep & ->).
      destruct (IHus u (in_elt u l1 l2) (c / running (l1 ++ u :: l2))%nat
                  (ca || bool_decide (is_Some first)) w) as [HRu Hu'].
      rewrite Hstep in HRu, Hu'. simpl in HRu, Hu'. split.
      * eapply R_inner, HRu.
      * constructor; [|assumption]. intros v Hv.
        apply in_app_or in Hv as [Hv|[<-|Hv]]; [|assumption|];
          apply Hus, in_or_app; [now left | now right; right].
    + split; [apply R_refl | now constructor].
Qed.

Lemma always_exec_keeps (s : list (move FS)) (p : proc FS) w :
  always R H p -> always R H (snd (exec s p w)).
Proof.
  revert p w. induction s as [|m s IH]; intros p w Hp; [exact Hp|].
  rewrite exec_cons. apply IH, always_step, Hp.
Qed.

Lemma always_pbind (p : proc FS) k :
  always R H p -> (forall e, always R H (k e)) -> always R H (pbind p k).
Proof.
  intros Hp Hk. induction Hp as [e|h Hh|f HR Hf IHf|us first k0 Hus _ Hk0 IHk];
    simpl.
  - apply Hk.
  - now constructor.
  - constructor; intros c ca w.
    + specialize (HR c ca w). now destruct (f c ca w).
    + specialize (IHf c ca w). now destruct (f c ca w).
  - now constructor.
Qed.

(** *** The actions of RunTask *)

Context (Tasks : gmap string Task) (Force : bool).
Context (R_tell : forall ca w line, R ca w (say [Log line] w)).
Context (R_run : forall opts w,
  Stdin opts = os_Stdin -> Stderr opts = os_Stderr ->
  Stdout opts = os_Stdout \/ Stdout opts = buff ->
  R (Context opts) w (ran_world RunCommand opts w)).
Context (R_set : forall name t, Tasks !! name = Some t -> Set_ t <> "" ->
  forall ca w text,
    R ca w (mkWorld (Setenv (Set_ t) (TrimSpace text) (environ w))
                    (files w) (trace w))).
Context (H_fuel : H OutOfFuel).

Local Abbreviation hv := handleVariables.
Local Abbreviation rv := ReplaceVariables.
Local Abbreviation RT :=
  (RunTask FS hv rv RunCommand glob modTime Tasks Force).

Lemma always_run c dir envs out k :
  out = os_Stdout \/ out = buff ->
  (forall err text, always R H (k err text)) ->
  always R H (run FS RunCommand c dir envs out k).
Proof.
  intros Hout Hk. unfold run. constructor; intros _ ca w.
  - pose proof (R_run (mkOpts ca c dir envs os_Stdin out os_Stderr) w
                  eq_refl eq_refl Hout) as HR.
    unfold ran_world in HR. simpl in HR.
    now destruct (RunCommand _ w) as [[fs' text] err].
  - destruct (RunCommand _ w) as [[fs' text] err]. apply Hk.
Qed.

Lemma always_runCommand (rt : string -> proc FS) name t i :
  (forall n, always R H (rt n)) ->
  Tasks !! name = Some t ->
  (i < length (Cmds t))%nat ->
  always R H (runCommand FS hv rv RunCommand rt t i).
Proof.
  intros Hrt Ht Hi. unfold runCommand, look.
  constructor; intros _ ca w; simpl; [apply R_refl|].
  destruct (hv t w) as [vars|e]; simpl; [|constructor].
  destruct (Cmds t !! i) as [ci|] eqn:Eci.
  2:{ apply lookup_ge_None in Eci. lia. }
  destruct (rv ci vars) as [c|e]; simpl; [|constructor].
  destruct (HasPrefix c "^"); [apply Hrt|].
  destruct (rv (Dir t) vars) as [dir|e]; simpl; [|constructor].
  constructor; intros n ca' w'; simpl; [apply R_refl|].
  destruct (getEnviron FS rv n t vars w') as [envs|e]; simpl; [|constructor].
  destruct (String.eqb_spec (Set_ t) "") as [HSet|HSet].
  - unfold tell. constructor; intros _ ca'' w''; simpl; [apply R_tell|].
    apply always_run; [now left|]. intros err text. constructor.
  - apply always_run; [now right|]. intros [e|] text; [constructor|].
    unfold assign. constructor; intros _ ca'' w''; simpl.
    + now apply (R_set name t).
    + constructor.
Qed.

Lemma always_runCmds (rt : string -> proc FS) name t idx :
  (forall n, always R H (rt n)) ->
  Tasks !! name = Some t ->
  Forall (fun i => (i < length (Cmds t))%nat) idx ->
  always R H (runCmds FS hv rv RunCommand rt t name idx).
Proof.
  intros Hrt Ht Hidx. induction Hidx as [|i idx Hi _ IH]; cbn [runCmds];
    [constructor|].
  apply always_pbind; [now apply (always_runCommand rt name)|].
  intros [e|]; [constructor | exact IH].
Qed.

Lemma always_body (rt : string -> proc FS) name :
  (forall n, always R H (rt n)) ->
  always R H
    (RunTask_body FS hv rv RunCommand glob modTime Tasks Force rt name).
Proof.
  intros Hrt. unfold RunTask_body.
  destruct (Tasks !! name) as [t|] eqn:Ht; [|constructor].
  assert (Hcmds : always R H
            (runCmds FS hv rv RunCommand rt t name (seq 0 (length (Cmds t))))).
  { apply always_runCmds; [assumption..|].
    apply List.Forall_forall. intros i Hi. apply in_seq in Hi. lia. }
  apply always_pbind.
  - unfold runDeps, look. constructor; intros _ ca w; simpl; [apply R_refl|].
    destruct (hv t w) as [vars|e]; simpl; [|constructor].
    constructor; [|intros e; constructor].
    intros u Hu. apply in_map_iff in Hu as (d & <- & _).
    unfold dep_unit, look. constructor; intros _ ca' w'; simpl;
      [apply R_refl|].
    destruct (rv d vars) as [dep|e]; simpl; [apply Hrt | constructor].
  - intros [e|]; simpl; [constructor|].
    destruct Force; simpl; [exact Hcmds|].
    unfold look. constructor; intros _ ca w; simpl; [apply R_refl|].
    destruct (isUpToDate _ _ _ t (files w)); [|exact Hcmds].
    unfold tell. constructor; intros _ ca' w'; simpl; [apply R_tell|].
    constructor.
Qed.

Lemma always_RunTask fuel name : always R H (RT fuel name).
Proof.
  revert name. induction fuel as [|fuel IH]; intros name; simpl.
  - now constructor.
  - now apply always_body.
Qed.

End Always.

(** ** Runs without a change *)

Section Invariant.

Context (Q : World FS -> World FS -> Prop) (H : halt -> Prop).
Context (Q_refl : forall w, Q w w).
Context (Q_trans : forall w1 w2 w3, Q w1 w2 -> Q w2 w3 -> Q w1 w3).

Lemma always_exec (s : list (move FS)) (p : proc FS) w :
  always (fun _ => Q) H p ->
  Forall (fun m => forall w0, Q w0 (others m w0)) s ->
  Q w (fst (exec s p w)).
Proof.
  revert p w. induction s as [|m s IH]; intros p w Hp Hs; [apply Q_refl|].
  inversion Hs as [|? ? Hm Hs']; subst. rewrite exec_cons.
  destruct (always_step (fun _ => Q) H (fun _ => Q_refl) (fun _ _ _ _ h => h)
              p Hp (choice m) (ctx_done m) (others m w)) as [Hq Hp'].
  eapply Q_trans; [apply Hm|]. eapply Q_trans; [exact Hq|].
  now apply IH.
Qed.

End Invariant.

Lemma Getenv_env_put_other key k v (env : list (string * string)) :
  k <> key -> Getenv key (env_put k v env) = Getenv key env.
Proof.
  intros Hk. induction env as [|[k0 v0] env IH]; simpl.
  - destruct (String.eqb_spec k key); [contradiction | reflexivity].
  - destruct (String.eqb_spec k0 k) as [->|Hk0]; simpl.
    + destruct (String.eqb_spec k key); [contradiction | reflexivity].
    + destruct (String.eqb k0 key); [reflexivity | exact IH].
Qed.

Lemma Getenv_Setenv_other key k v (env : list (string * string)) :
  k <> key -> Getenv key (Setenv k v env) = Getenv key env.
Proof.
  intros Hk. unfold Setenv. destruct (setenv_ok k v); [|reflexivity].
  now apply Getenv_env_put_other.
Qed.

Lemma calls_app (a b : list event) : calls (a ++ b) = (calls a + calls b)%nat.
Proof.
  induction a as [|ev a IH]; simpl; [reflexivity|].
  destruct ev; simpl; now rewrite ?IH.
Qed.

Lemma exec_pbind_from (s : list (move FS)) p w w1 e :
  exec s p w = (w1, Ret e) ->
  exists s1 s2 w0,
    s = s1 ++ s2 /\ exec s2 (Ret e) w0 = (w1, Ret e)
    /\ forall k s', exec (s1 ++ s') (pbind p k) w = exec s' (k e) w0.
Proof.
  revert p w. induction s as [|m s IH]; intros p w Hs.
  - simpl in Hs. injection Hs as <- ->. exists [], [], w. auto.
  - destruct (is_Ret p) eqn:Hp.
    + destruct p as [e0| | |]; try discriminate.
      pose proof (exec_Ret_inv _ _ _ _ _ Hs) as [= <-].
      exists [], (m :: s), w. auto.
    + rewrite exec_cons in Hs.
      destruct (IH _ _ Hs) as (s1 & s2 & w0 & -> & H1 & H2).
      exists (m :: s1), s2, w0. split; [reflexivity|]. split; [assumption|].
      intros k s'. rewrite <- app_comm_cons, exec_cons, step_pbind by assumption.
      apply H2.
Qed.

Lemma exec_Halt_inv (s : list (move FS)) h w w' q :
  exec s (Halt h) w = (w', q) -> q = Halt h.
Proof.
  revert w. induction s as [|m s IH]; intros w; simpl.
  - now intros [= _ <-].
  - apply IH.
Qed.

Section Further.

Context (Tasks : gmap string Task) (Force : bool).

Local Abbreviation hv := handleVariables.
Local Abbreviation rv := ReplaceVariables.
Local Abbreviation RT :=
  (RunTask FS hv rv RunCommand glob modTime Tasks Force).
Local Abbreviation unit_ f := (dep_unit FS rv (RT f)).
Local Abbreviation runDeps_ f := (runDeps FS hv rv (RT f)).
Local Abbreviation runCommand_ f := (runCommand FS hv rv RunCommand (RT f)).
Local Abbreviation runCmds_ f := (runCmds FS hv rv RunCommand (RT f)).
Local Abbreviation next_cmd_ f := (next_cmd FS hv rv RunCommand (RT f)).

(** X1.  RunTask changes no environment variable other than those named
    by a [Set] field of the registry: if no task names [key] in its [Set],
    a run in which the others leave [key] alone leaves it alone.  In
    particular the [Env] field never writes the process environment. *)
Theorem RunTask_keeps_variable (key : string) (fuel : nat) (name : string)
  (s : list (move FS)) (w : World FS) :
  (forall n t, Tasks !! n = Some t -> Set_ t <> key) ->
  Forall (fun m => forall w0,
            Getenv key (environ (others m w0)) = Getenv key (environ w0)) s ->
  Getenv key (environ (fst (exec s (RT fuel name) w)))
  = Getenv key (environ w).
Proof.
  intros Hreg Hs.
  apply (always_exec (fun w w' => Getenv key (environ w')
                                  = Getenv key (environ w)) any_halt).
  - reflexivity.
  - intros w1 w2 w3 H12 H23. congruence.
  - apply (always_RunTask (same_variable key) any_halt); unfold same_variable.
    + reflexivity.
    + reflexivity.
    + reflexivity.
    + intros n t Ht _ ca w0 text. simpl.
      apply Getenv_Setenv_other. now apply (Hreg n).
    + exact I.
  - exact Hs.
Qed.

(** X2.  RunTask writes files only through its commands: in a run where
    the others do the same, the calls of execext.RunCommand on record only
    grow, and if no call has been added the files are as they were. *)
Theorem RunTask_files_by_calls (fuel : nat) (name : string)
  (s : list (move FS)) (w : World FS) :
  Forall (fun m => forall w0, files_by_calls false w0 (others m w0)) s ->
  files_by_calls false w (fst (exec s (RT fuel name) w)).
Proof.
  intros Hs.
  apply (always_exec (files_by_calls false) any_halt).
  - intros w0. split; [lia | reflexivity].
  - intros w1 w2 w3 [Hle1 Hf1] [Hle2 Hf2]. split; [lia|].
    intros Heq. rewrite Hf2, Hf1 by lia. reflexivity.
  - apply (always_RunTask files_by_calls any_halt); unfold files_by_calls.
    + intros _ w0. split; [lia | reflexivity].
    + intros _ w0 line. simpl. rewrite calls_app. simpl.
      split; [lia | reflexivity].
    + intros opts w0 _ _ _. unfold ran_world. simpl. rewrite calls_app.
      simpl. split; lia.
    + intros n t _ _ _ w0 text. simpl. split; [lia | reflexivity].
    + exact I.
  - exact Hs.
Qed.

(** X4.  Once the group of a task holds an error, a move of the group
    still moves one of its running goroutines, now under a cancelled
    context, and every call of execext.RunCommand made in that move is
    made with a cancelled context. *)
Theorem RunTask_cancels_siblings (fuel : nat) (name : string)
  (s : list (move FS)) (w w1 : World FS) us (e : error) k (m : move FS) :
  exec s (RT fuel name) w = (w1, Group us (Some e) k) ->
  let w2 := others m w1 in
  calls_cancelled true w2
    (fst (step (choice m) (ctx_done m) (Group us (Some e) k) w2))
  /\ (forallb is_Ret us = false ->
      exists l1 u l2 c',
        us = l1 ++ u :: l2 /\ is_Ret u = false
        /\ step (choice m) (ctx_done m) (Group us (Some e) k) w2
           = (fst (step c' true u w2),
              Group (l1 ++ snd (step c' true u w2) :: l2) (Some e) k)).
Proof.
  intros Hs w2.
  assert (Hrefl : forall ca (w0 : World FS), calls_cancelled ca w0 w0).
  { intros ca w0. exists []. rewrite app_nil_r. split; [reflexivity|].
    constructor. }
  assert (Hinner : forall ca b (w0 w0' : World FS),
            calls_cancelled (ca || b) w0 w0' -> calls_cancelled ca w0 w0').
  { intros ca b w0 w0' (evs & E & Hc). exists evs. split; [assumption|].
    intros ->. now apply Hc. }
  assert (Hall : always calls_cancelled any_halt (Group us (Some e) k)).
  { pose proof (always_exec_keeps calls_cancelled any_halt Hrefl Hinner
                  s (RT fuel name) w) as Hk.
    rewrite Hs in Hk. apply Hk.
    apply (always_RunTask calls_cancelled any_halt).
    - exact Hrefl.
    - intros ca w0 line. exists [Log line]. split; [reflexivity|].
      intros _. repeat constructor.
    - intros opts w0 _ _ Hout. unfold ran_world, calls_cancelled. simpl.
      eexists. split; [reflexivity|]. intros Hca.
      constructor; [exact Hca|].
      destruct (Stdout opts); repeat constructor.
    - intros n t _ _ ca w0 text. exists []. simpl. rewrite app_nil_r.
      split; [reflexivity|]. constructor.
    - exact I. }
  inversion Hall as [| | |? ? ? Hus Hk]; subst.
  destruct (forallb is_Ret us) eqn:Hdone.
  - split; [|discriminate]. simpl. rewrite Hdone. apply Hrefl.
  - destruct (step_group_moves (choice m) (ctx_done m) us (Some e) k w2 Hdone)
      as (l1 & u & l2 & w' & u' & Hsplit & Hu & Hstep & Hgroup).
    assert (Hflag : ctx_done m || bool_decide (is_Some (Some e)) = true).
    { rewrite bool_decide_eq_true_2 by eauto. apply orb_true_r. }
    rewrite Hflag in Hstep. rewrite Hgroup. simpl fst. split.
    + assert (Hin : In u us) by (rewrite Hsplit; apply in_elt).
      destruct (always_step calls_cancelled any_halt Hrefl Hinner u
                  (Hus u Hin) (choice m / running us) true w2) as [HR _].
      now rewrite Hstep in HR.
    + intros _. exists l1, u, l2, (choice m / running us)%nat.
      split; [assumption|]. split; [assumption|]. now rewrite Hstep.
Qed.

(** X5.  runDeps waits for every dependency, also after one of them has
    failed: when it returns, its group holds one goroutine for each
    dependency, all of them returned, and the error it keeps is the one
    returned; and while a goroutine is still running, a move of runDeps
    never makes it return. *)
Theorem runDeps_waits_for_all (f : nat) (t : Task) (vars : gmap string string)
  (m : move FS) (s : list (move FS)) (w w1 : World FS) :
  hv t (others m w) = Ok vars ->
  (forall rd,
     exec (m :: s) (runDeps_ f t) w = (w1, Ret rd) ->
     exists s1 mj s2 us wj,
       s = s1 ++ mj :: s2
       /\ exec (m :: s1) (runDeps_ f t) w = (wj, Group us rd Ret)
       /\ forallb is_Ret us = true
       /\ length us = length (Deps t))
  /\ (forall us first k m',
        exec (m :: s) (runDeps_ f t) w = (w1, Group us first k) ->
        forallb is_Ret us = false ->
        is_Ret (snd (exec ((m :: s) ++ [m']) (runDeps_ f t) w)) = false).
Proof.
  intros Ehv. split.
  - intros rd Hs.
    destruct (runDeps_run (RT f) _ _ _ _ _ Hs) as
      [(? & _)|(m0 & s0 & [= <- <-] & [(e & Ee & _)|(vars' & us' & _ & HF)])];
      [discriminate|congruence|].
    simpl in HF. destruct HF as (_ & Hlen & _ & [?|(HF & Hall & Hj)]);
      [discriminate|].
    injection HF as HF.
    destruct Hj as (s1 & mj & s2 & wj & -> & Hj).
    exists s1, mj, s2, us', wj. rewrite HF. auto.
  - intros us first k m' Hs Hrun.
    rewrite (exec_app_eq _ _ _ _ _ _ Hs). rewrite exec_cons. cbn [exec].
    destruct (step_group_moves (choice m') (ctx_done m') us first k
                (others m' w1) Hrun)
      as (l1 & u & l2 & w' & u' & _ & _ & _ & ->).
    reflexivity.
Qed.

(** X6.  The command loop of RunTask: when command [i] returns an error,
    the loop stops there with that error wrapped in a taskRunError that
    names the task, and no later command is started; when it returns nil,
    the loop goes on with the remaining commands, from the world where
    the command returned. *)
Theorem runCmds_continues (f : nat) (t : Task) (name : string) (i : nat)
  (rest : list nat) (s : list (move FS)) (w w1 : World FS)
  (r : option error) :
  exec s (runCommand_ f t i) w = (w1, Ret r) ->
  exists s1 s2 w0,
    s = s1 ++ s2 /\ exec s2 (Ret r) w0 = (w1, Ret r)
    /\ forall s',
         exec (s1 ++ s') (runCmds_ f t name (i :: rest)) w
         = exec s' (match r with
                    | Some e => Ret (Some (taskRunError name e))
                    | None => runCmds_ f t name rest
                    end) w0.
Proof.
  intros Hs. destruct (exec_pbind_from _ _ _ _ _ Hs) as (s1 & s2 & w0 & ? & ? & Hk).
  exists s1, s2, w0. split; [assumption|]. split; [assumption|].
  intros s'.
  change (runCmds_ f t name (i :: rest))
    with (pbind (runCommand_ f t i) (next_cmd_ f t name rest)).
  rewrite Hk. now destruct r.
Qed.

(** X7.  The up-to-date shortcut.  Without Force, once runDeps has
    returned nil RunTask looks at the files once: if isUpToDate holds it
    writes the up-to-date line and returns nil without running any
    command; otherwise it runs the commands, from the world of the look. *)
Theorem RunTask_up_to_date (f : nat) (name : string) (t : Task)
  (s : list (move FS)) (w w1 : World FS) :
  Tasks !! name = Some t ->
  Force = false ->
  exec s (runDeps_ f t) w = (w1, Ret None) ->
  exists s1 s2 w0,
    s = s1 ++ s2 /\ exec s2 (Ret None) w0 = (w1, Ret None)
    /\ forall m1,
         (isUpToDate FS glob modTime t (files (others m1 w0)) = true ->
          forall m2,
            exec (s1 ++ [m1; m2]) (RT (S f) name) w
            = (say [Log (up_to_date_line name)] (others m2 (others m1 w0)),
               Ret None))
         /\ (isUpToDate FS glob modTime t (files (others m1 w0)) = false ->
             forall s',
               exec (s1 ++ m1 :: s') (RT (S f) name) w
               = exec s' (runCmds_ f t name (seq 0 (length (Cmds t))))
                      (others m1 w0)).
Proof.
  intros Ht HF Hs.
  destruct (exec_pbind_from _ _ _ _ _ Hs) as (s1 & s2 & w0 & ? & ? & Hk).
  exists s1, s2, w0. split; [assumption|]. split; [assumption|].
  assert (Hrt : forall s',
            exec (s1 ++ s') (RT (S f) name) w
            = exec s' (afterDeps FS hv rv RunCommand glob modTime Force
                         (RT f) t name None) w0).
  { intros s'. simpl RunTask. unfold RunTask_body. rewrite Ht. apply Hk. }
  intros m1. split.
  - intros Hfresh m2. rewrite Hrt. unfold afterDeps. rewrite HF. simpl.
    now rewrite Hfresh.
  - intros Hstale s'. rewrite Hrt. unfold afterDeps at 1. rewrite HF.
    rewrite exec_cons. simpl. now rewrite Hstale.
Qed.

(** X8.  A command that invokes a task missing from the registry: the
    step returns at once with the not-found error, the task's loop wraps
    it in a taskRunError that names the invoking task, and the later
    commands are not run. *)
Theorem runCmds_missing_subtask (f : nat) (t : Task) (name : string)
  (i : nat) (rest : list nat) (ci sub : string) (vars : gmap string string)
  (m : move FS) (s : list (move FS)) (w : World FS) :
  Cmds t !! i = Some ci ->
  hv t (others m w) = Ok vars ->
  rv ci vars = Ok ("^" +:+ sub) ->
  Tasks !! sub = None ->
  exec [m] (runCommand_ (S f) t i) w
  = (others m w, Ret (Some (taskNotFoundError sub)))
  /\ exec (m :: s) (runCmds_ (S f) t name (i :: rest)) w
     = exec s (Ret (Some (taskRunError name (taskNotFoundError sub))))
            (others m w).
Proof.
  intros Hi Ehv Erv Hsub.
  pose proof (runCommand_subtask (RT (S f)) t i ci vars sub
                (choice m) (ctx_done m) _ Hi Ehv Erv) as E.
  assert (Hnf : RT (S f) sub = Ret (Some (taskNotFoundError sub))).
  { simpl. unfold RunTask_body. now rewrite Hsub. }
  rewrite Hnf in E. split.
  - rewrite exec_cons, E. reflexivity.
  - change (runCmds_ (S f) t name (i :: rest))
      with (pbind (runCommand_ (S f) t i) (next_cmd_ (S f) t name rest)).
    rewrite exec_cons, step_pbind by reflexivity. rewrite E. reflexivity.
Qed.

(** X9.  A command of a task with an empty [Set] that is run by the
    shell: the command is written to the log, then the shell runs it with
    its output on the terminal, and runCommand returns the error of
    execext.RunCommand as it is; the process environment is not written. *)
Theorem runCommand_shown (f : nat) (t : Task) (i : nat) (ci c dir : string)
  (vars : gmap string string) (envs : option (list string))
  (m1 m2 m3 m4 : move FS) (w : World FS) :
  Set_ t = "" ->
  Cmds t !! i = Some ci ->
  let w1 := others m1 w in
  hv t w1 = Ok vars ->
  rv ci vars = Ok c ->
  HasPrefix c "^" = false ->
  rv (Dir t) vars = Ok dir ->
  let w2 := others m2 w1 in
  getEnviron FS rv (choice m2) t vars w2 = Ok envs ->
  let w3 := others m3 w2 in
  let w4 := others m4 (say [Log c] w3) in
  let opts := mkOpts (ctx_done m4) c dir envs os_Stdin os_Stdout os_Stderr in
  exec [m1; m2; m3; m4] (runCommand_ f t i) w
  = (mkWorld (environ w4) (fst (fst (RunCommand opts w4)))
       (trace w4 ++ [Spawn opts; Shown (snd (fst (RunCommand opts w4)))]),
     Ret (snd (RunCommand opts w4))).
Proof.
  intros HSet Hi w1 Ehv Erv Hpre Edir w2 Eenv w3 w4 opts.
  unfold runCommand, look, run, tell. simpl. fold w1. rewrite Ehv. simpl.
  rewrite Hi, Erv. simpl. rewrite Hpre, Edir. simpl. fold w2.
  rewrite Eenv. simpl. rewrite HSet. simpl. fold w3. fold w4. fold opts.
  now destruct (RunCommand opts w4) as [[fs' text] err].
Qed.

(** X10.  runCommand calls the shell only after every substitution has
    succeeded: when resolving the variables, substituting the command,
    substituting [Dir] or building the environment fails, runCommand
    returns that error and the world is left to the others. *)
Theorem runCommand_substitution_errors (f : nat) (t : Task) (i : nat)
  (e : error) (m1 : move FS) (s : list (move FS)) (w : World FS) :
  let w1 := others m1 w in
  (hv t w1 = Err e ->
   exec (m1 :: s) (runCommand_ f t i) w = exec s (Ret (Some e)) w1)
  /\ (forall vars ci,
        hv t w1 = Ok vars -> Cmds t !! i = Some ci ->
        (rv ci vars = Err e ->
         exec (m1 :: s) (runCommand_ f t i) w = exec s (Ret (Some e)) w1)
        /\ (forall c,
              rv ci vars = Ok c -> HasPrefix c "^" = false ->
              (rv (Dir t) vars = Err e ->
               exec (m1 :: s) (runCommand_ f t i) w
               = exec s (Ret (Some e)) w1)
              /\ (forall dir m2,
                    rv (Dir t) vars = Ok dir ->
                    getEnviron FS rv (choice m2) t vars (others m2 w1)
                    = Err e ->
                    exec (m1 :: m2 :: s) (runCommand_ f t i) w
                    = exec s (Ret (Some e)) (others m2 w1)))).
Proof.
  intros w1. unfold runCommand, look. split.
  - intros Ehv. rewrite exec_cons. simpl. fold w1. now rewrite Ehv.
  - intros vars ci Ehv Hi. split.
    + intros Erv. rewrite exec_cons. simpl. fold w1. rewrite Ehv. simpl.
      now rewrite Hi, Erv.
    + intros c Erv Hpre. split.
      * intros Edir. rewrite exec_cons. simpl. fold w1. rewrite Ehv. simpl.
        rewrite Hi, Erv. simpl. now rewrite Hpre, Edir.
      * intros dir m2 Edir Eenv. rewrite exec_cons. simpl. fold w1.
        rewrite Ehv. simpl. rewrite Hi, Erv. simpl. rewrite Hpre, Edir. simpl.
        now rewrite Eenv.
Qed.

(** X11.  When the variables of a task cannot be resolved, runDeps
    returns that error without starting any dependency, and RunTask
    returns it as it is without running any command. *)
Theorem RunTask_variables_error (f : nat) (name : string) (t : Task)
  (e : error) (m : move FS) (s : list (move FS)) (w : World FS) :
  Tasks !! name = Some t ->
  hv t (others m w) = Err e ->
  exec (m :: s) (runDeps_ f t) w = exec s (Ret (Some e)) (others m w)
  /\ exec (m :: s) (RT (S f) name) w = exec s (Ret (Some e)) (others m w).
Proof.
  intros Ht Ehv.
  assert (E : exec [m] (runDeps_ f t) w = (others m w, Ret (Some e))).
  { unfold runDeps, look. simpl. now rewrite Ehv. }
  split.
  - change (m :: s) with ([m] ++ s). now rewrite (exec_app_eq _ _ _ _ _ _ E).
  - change (m :: s) with ([m] ++ s).
    now apply (body_deps_failed Tasks Force (RT f) t name).
Qed.

(** X12.  A task with a dependency whose name is missing from the
    registry never reaches its commands: runDeps cannot return nil, and
    whenever RunTask returns it returns the error runDeps returned, in the
    world where runDeps returned it. *)
Theorem missing_dependency_blocks (f : nat) (name : string) (t : Task)
  (d : string) :
  Tasks !! name = Some t ->
  In d (Deps t) ->
  (forall vars dep, rv d vars = Ok dep -> Tasks !! dep = None) ->
  (forall s w w1, exec s (runDeps_ f t) w <> (w1, Ret None))
  /\ forall s w w' r,
       exec s (RT (S f) name) w = (w', Ret r) ->
       exists e s1 s2 w1,
         r = Some e /\ s = s1 ++ s2
         /\ exec s1 (runDeps_ f t) w = (w1, Ret (Some e))
         /\ exec s2 (Ret (Some e)) w1 = (w', Ret (Some e)).
Proof.
  intros Ht Hd Hmiss.
  assert (Hnil : forall s w w1, exec s (runDeps_ f t) w <> (w1, Ret None)).
  { intros s w w1 Hs.
    apply (runDeps_nil (RT f)) in Hs
      as (m & s1 & mj & s2 & vars & us & wj & _ & _ & _ & _ & _ & Hok).
    unfold deps_succeeded in Hok. rewrite List.Forall_forall in Hok.
    destruct (Hok d Hd) as (dep & s0 & wa & wb & Erv & Hrun).
    pose proof (Hmiss _ _ Erv) as Hdep.
    destruct f as [|f]; simpl in Hrun.
    - apply exec_Halt_inv in Hrun. discriminate.
    - unfold RunTask_body in Hrun. rewrite Hdep in Hrun.
      apply exec_Ret_inv in Hrun. discriminate. }
  split; [exact Hnil|].
  intros s w w' r Hs.
  pose proof (body_shape Tasks Force (RT f) t name s w w' (Ret r) Ht Hs) as Hsh.
  inversion Hsh as [s0 w0 w0' q Hq Hret Heq|s1 s2 w0 w1 w0' e H1 H2
                    |s1 s2 w0 w1 w0' q H1 H2]; subst.
  - destruct q; simpl in *; discriminate.
  - exists e, s1, s2, w1. auto.
  - exfalso. exact (Hnil _ _ _ H1).
Qed.

(** X13.  A task that declares no Sources or no Generates is never taken
    to be up to date: once runDeps has returned nil, RunTask goes on to
    the commands whatever the files are, with Force off as with Force on
    (where the files are not even looked at). *)
Theorem RunTask_without_patterns_runs (f : nat) (name : string) (t : Task)
  (s : list (move FS)) (w w1 : World FS) :
  Tasks !! name = Some t ->
  Sources t = [] \/ Generates t = [] ->
  exec s (runDeps_ f t) w = (w1, Ret None) ->
  exists s1 s2 w0,
    s = s1 ++ s2 /\ exec s2 (Ret None) w0 = (w1, Ret None)
    /\ forall m1 s',
         exec (s1 ++ (if Force then s' else m1 :: s')) (RT (S f) name) w
         = exec s' (runCmds_ f t name (seq 0 (length (Cmds t))))
                (if Force then w0 else others m1 w0).
Proof.
  intros Ht Hnone Hs.
  destruct (exec_pbind_from _ _ _ _ _ Hs) as (s1 & s2 & w0 & ? & ? & Hk).
  exists s1, s2, w0. split; [assumption|]. split; [assumption|].
  intros m1 s'. simpl RunTask. unfold RunTask_body. rewrite Ht, Hk.
  unfold afterDeps at 1.
  assert (HF : Force = true \/ Force = false) by (destruct Force; auto).
  destruct HF as [HF|HF]; rewrite HF; [reflexivity|].
  rewrite exec_cons. simpl.
  assert (Hstale : forall fs, isUpToDate FS glob modTime t fs = false).
  { intros fs. unfold isUpToDate. now destruct Hnone as [-> | ->];
      [|rewrite orb_true_r]. }
  now rewrite Hstale.
Qed.

End Further.

Section DriverFurther.

Context (readTaskfile : World FS -> result (gmap string Task)).
Context (HasCyclicDep : gmap string Task -> bool).
Context (WatchTasks : gmap string Task -> list string -> proc FS).
Context (Force Watch : bool).

Local Abbreviation Run_ :=
  (Run FS handleVariables ReplaceVariables RunCommand glob modTime
       readTaskfile HasCyclicDep WatchTasks Force Watch).
Local Abbreviation Run_args_ :=
  (Run_args FS handleVariables ReplaceVariables RunCommand glob modTime
            readTaskfile HasCyclicDep WatchTasks Force Watch).
Local Abbreviation Run_loaded_ :=
  (Run_loaded FS handleVariables ReplaceVariables RunCommand glob modTime
              HasCyclicDep WatchTasks Force Watch).
Local Abbreviation runAll_ :=
  (runAll FS handleVariables ReplaceVariables RunCommand glob modTime Force).
Local Abbreviation RT tasks :=
  (RunTask FS handleVariables ReplaceVariables RunCommand glob modTime
           tasks Force).

(** X14.  When the Taskfile is read, has no cycle, every requested name is
    in the registry and Watch is off, Run runs the requested tasks one
    after the other in the order given: when RunTask on a name returns
    nil, Run goes on with the next name from the world where it returned;
    when it returns an error, Run writes it as a fatal line and the
    process exits, the later names not being run. *)
Theorem Run_runs_in_order (fuel : nat) (args : list string)
  (tasks : gmap string Task) (m0 m1 : move FS) (w : World FS) :
  let w1 := others m1 (noticed FS args m0 w) in
  readTaskfile w1 = Ok tasks ->
  HasCyclicDep tasks = false ->
  find (missing tasks) (requested args) = None ->
  Watch = false ->
  (forall s,
     exec (opening FS args m0 ++ m1 :: s) (Run_ fuel args) w
     = exec s (runAll_ tasks fuel (requested args)) w1)
  /\ forall a rest s wa wb r,
       exec s (RT tasks fuel a) wa = (wb, Ret r) ->
       exists s1 s2 w0,
         s = s1 ++ s2 /\ exec s2 (Ret r) w0 = (wb, Ret r)
         /\ match r with
            | None =>
                forall s',
                  exec (s1 ++ s') (runAll_ tasks fuel (a :: rest)) wa
                  = exec s' (runAll_ tasks fuel rest) w0
            | Some e =>
                forall m,
                  exec (s1 ++ [m]) (runAll_ tasks fuel (a :: rest)) wa
                  = (say [FatalErr e] (others m w0), Halt Exit1)
            end.
Proof.
  intros w1 Eread Hcyc Hfind HW. split.
  - intros s. rewrite Run_opening.
    rewrite (Run_args_loaded readTaskfile HasCyclicDep WatchTasks Force Watch
               _ _ tasks) by assumption.
    unfold Run_loaded. now rewrite Hcyc, Hfind, HW.
  - intros a rest s wa wb r Hs.
    destruct (exec_pbind_from _ _ _ _ _ Hs) as (s1 & s2 & w0 & ? & ? & Hk).
    exists s1, s2, w0. split; [assumption|]. split; [assumption|].
    destruct r as [e|].
    + intros m. cbn [runAll]. rewrite Hk. reflexivity.
    + intros s'. cbn [runAll]. now rewrite Hk.
Qed.

(** X15.  With Watch on (and the Taskfile read, no cycle, every name
    known) Run hands the requested names to WatchTasks and does not call
    RunTask itself; an error returned by WatchTasks is fatal, a nil return
    ends Run. *)
Theorem Run_watch (fuel : nat) (args : list string)
  (tasks : gmap string Task) (m0 m1 : move FS) (w : World FS) :
  let w1 := others m1 (noticed FS args m0 w) in
  readTaskfile w1 = Ok tasks ->
  HasCyclicDep tasks = false ->
  find (missing tasks) (requested args) = None ->
  Watch = true ->
  forall s wb r,
    exec s (WatchTasks tasks (requested args)) w1 = (wb, Ret r) ->
    exists s1 s2 w0,
      s = s1 ++ s2 /\ exec s2 (Ret r) w0 = (wb, Ret r)
      /\ match r with
         | None =>
             exec (opening FS args m0 ++ m1 :: s1) (Run_ fuel args) w
             = (w0, Ret None)
         | Some e =>
             forall m,
               exec (opening FS args m0 ++ m1 :: s1 ++ [m]) (Run_ fuel args) w
               = (say [FatalErr e] (others m w0), Halt Exit1)
         end.
Proof.
  intros w1 Eread Hcyc Hfind HW s wb r Hs.
  destruct (exec_pbind_from _ _ _ _ _ Hs) as (s1 & s2 & w0 & ? & ? & Hk).
  exists s1, s2, w0. split; [assumption|]. split; [assumption|].
  assert (Hrun : forall s',
            exec (opening FS args m0 ++ m1 :: s1 ++ s') (Run_ fuel args) w
            = exec s' (match r with
                       | Some e => fatal FS (FatalErr e)
                       | None => Ret None
                       end) w0).
  { intros s'. rewrite Run_opening.
    rewrite (Run_args_loaded readTaskfile HasCyclicDep WatchTasks Force Watch
               _ _ tasks) by assumption.
    unfold Run_loaded. rewrite Hcyc, Hfind, HW. rewrite Hk. now destruct r. }
  destruct r as [e|].
  - intros m. rewrite Hrun. reflexivity.
  - specialize (Hrun []). now rewrite app_nil_r in Hrun.
Qed.

(** X16.  When the Taskfile cannot be read, Run writes the error as a
    fatal line and the process exits: no cycle check, no lookup of the
    requested names, no task run. *)
Theorem Run_unreadable (fuel : nat) (args : list string) (e : error)
  (m0 m1 m2 : move FS) (w : World FS) :
  let w1 := others m1 (noticed FS args m0 w) in
  readTaskfile w1 = Err e ->
  exec (opening FS args m0 ++ [m1; m2]) (Run_ fuel args) w
  = (say [FatalErr e] (others m2 w1), Halt Exit1).
Proof.
  intros w1 Eread. rewrite Run_opening. unfold Run_args, look. simpl.
  fold w1. now rewrite Eread.
Qed.

End DriverFurther.

(** ** getEnviron and the order of the map *)

Lemma appendEnv_Ok_map pairs vars envs r :
  appendEnv ReplaceVariables pairs vars envs = Ok r ->
  r = envs ++ map (entry_of ReplaceVariables vars) pairs.
Proof.
  revert envs. induction pairs as [|[k v] pairs IH]; intros envs; simpl.
  - intros [= <-]. now rewrite app_nil_r.
  - unfold entry_of at 1. simpl.
    destruct (ReplaceVariables v vars) as [v'|] eqn:Ev; [|discriminate].
    destruct (ReplaceVariables k vars) as [k'|] eqn:Ek; [|discriminate].
    intros Hr. rewrite (IH _ Hr), <- app_assoc. reflexivity.
Qed.

(** X17.  The order in which Go ranges over [Env] does not decide the
    outcome of getEnviron: it fails under one order exactly when it fails
    under any other, and two successful results are os.Environ() followed
    by the same entries, up to their order. *)
Theorem getEnviron_any_order (c c' : nat) (t : Task)
  (vars : gmap string string) (w : World FS) :
  is_Err (getEnviron FS ReplaceVariables c t vars w)
  = is_Err (getEnviron FS ReplaceVariables c' t vars w)
  /\ forall r r',
       getEnviron FS ReplaceVariables c t vars w = Ok (Some r) ->
       getEnviron FS ReplaceVariables c' t vars w = Ok (Some r') ->
       exists added added',
         r = Environ (environ w) ++ added
         /\ r' = Environ (environ w) ++ added'
         /\ Permutation added added'.
Proof.
  unfold getEnviron. destruct (Env t) as [m|]; [|split; [reflexivity|]].
  2:{ intros r r' [=]. }
  assert (Hperm : Permutation (range_map c m) (range_map c' m)).
  { unfold range_map. rewrite !shuffle_Permutation. reflexivity. }
  split.
  - destruct (appendEnv _ (range_map c m) _ _) as [r|e] eqn:E;
      destruct (appendEnv _ (range_map c' m) _ _) as [r'|e'] eqn:E';
      try reflexivity; exfalso.
    + assert (HE : Exists (unresolved ReplaceVariables vars) (range_map c m)).
      { rewrite Hperm. eapply appendEnv_Err. eauto. }
      apply appendEnv_Err with (envs := Environ (environ w)) in HE.
      destruct HE as [e HE]. congruence.
    + assert (HE : Exists (unresolved ReplaceVariables vars) (range_map c' m)).
      { rewrite <- Hperm. eapply appendEnv_Err. eauto. }
      apply appendEnv_Err with (envs := Environ (environ w)) in HE.
      destruct HE as [e' HE]. congruence.
  - intros r r'.
    destruct (appendEnv _ (range_map c m) _ _) as [r0|e] eqn:E;
      [|discriminate].
    destruct (appendEnv _ (range_map c' m) _ _) as [r0'|e'] eqn:E';
      [|discriminate].
    intros [= <-] [= <-].
    apply appendEnv_Ok_map in E, E'.
    exists (map (entry_of ReplaceVariables vars) (range_map c m)),
           (map (entry_of ReplaceVariables vars) (range_map c' m)).
    split; [assumption|]. split; [assumption|].
    now apply Permutation_map.
Qed.

(** X18.  What Set has stored reaches the later commands: once os.Setenv
    has accepted [key] and [value], every environment getEnviron builds
    from that process environment holds the entry [key=value]. *)
Theorem stored_variable_is_passed_on (key value : string) (c : nat)
  (t : Task) (vars : gmap string string) (w : World FS)
  (r : list string) (env0 : list (string * string)) :
  setenv_ok key value = true ->
  environ w = Setenv key value env0 ->
  getEnviron FS ReplaceVariables c t vars w = Ok (Some r) ->
  In (key_value key value) r.
Proof.
  intros Hok Henv Hr. unfold getEnviron in Hr.
  destruct (Env t) as [m|]; [|discriminate].
  destruct (appendEnv _ _ _ _) as [r0|e] eqn:E; [|discriminate].
  injection Hr as <-. apply appendEnv_Ok_map in E as ->.
  apply in_or_app. left. rewrite Henv. unfold Setenv. rewrite Hok.
  clear. induction env0 as [|[k v] env0 IH]; simpl; [now left|].
  destruct (String.eqb k key); simpl; [now left | now right].
Qed.

End Facts.

(** * The theorems at work on the concrete instance *)

Section Instances.

Import Demo.

Local Abbreviation hv := Demo.handleVariables.
Local Abbreviation rv := Demo.ReplaceVariables.
Local Abbreviation rc := Demo.RunCommand.

(** The model at work: the white space of TrimSpace, two enumerations of
    a map, and two schedules of the same task ([quiet] always moves the
    first running goroutine, [busy] the second when there is one). *)
Example TrimSpace_both_ends :
  TrimSpace ("  hello" +:+ LF) = "hello"
  /\ TrimSpace (String (ascii_of_nat 194) (String (ascii_of_nat 160) "x")) = "x"
  /\ TrimSpace "a b" = "a b".
Proof. repeat split. Qed.

Example shuffle_orders :
  shuffle 0 [1; 2; 3] = [1; 2; 3] /\ shuffle 5 [1; 2; 3] = [3; 2; 1].
Proof. split; reflexivity. Qed.

Example run_a_quiet :
  commands (trace (fst (exec (quiet 80) (Demo.RunTask tasks1 false 5 "a")
                          world0)))
  = ["echo b"; "echo b"; "echo c"; "echo a1"; "echo b"; "echo a2"].
Proof. vm_compute. reflexivity. Qed.

Example run_a_busy :
  commands (trace (fst (exec (busy 80) (Demo.RunTask tasks1 false 5 "a")
                          world0)))
  = ["echo b"; "echo c"; "echo b"; "echo a1"; "echo b"; "echo a2"].
Proof. vm_compute. reflexivity. Qed.

Example run_out_of_fuel :
  snd (exec (quiet 80) (Demo.RunTask tasks1 false 0 "a") world0)
  = Halt OutOfFuel.
Proof. vm_compute. reflexivity. Qed.

(** C3: the claim as first stated fails on a source file whose
    modification time is the zero instant: both pattern sets resolve, each
    to one file, the generated file is strictly newer than the source, and
    yet isUpToDate is false. *)
Lemma isUpToDate_zero_source :
  Sources task_gen <> [] /\ Generates task_gen <> []
  /\ matches Demo.FS Demo.glob fs_zero (Sources task_gen) = Ok ["s"]
  /\ matches Demo.FS Demo.glob fs_zero (Generates task_gen) = Ok ["g"]
  /\ Demo.times fs_zero (Sources task_gen) = Ok [0%Z]
  /\ Demo.times fs_zero (Generates task_gen) = Ok [5%Z]
  /\ ~ (Demo.isUpToDate task_gen fs_zero = true
        <-> (latest [0%Z] < earliest [5%Z])%Z).
Proof.
  repeat split; try discriminate; try reflexivity.
  intros [_ H]. assert (Hlt : (latest [0%Z] < earliest [5%Z])%Z) by reflexivity.
  apply H in Hlt. discriminate Hlt.
Qed.

Lemma isUpToDate_spec_witness :
  Demo.isUpToDate task_gen fs_newer = true
  <-> (latest [3%Z] < earliest [5%Z])%Z.
Proof.
  destruct (isUpToDate_spec Demo.glob Demo.modTime task_gen fs_newer)
    as (_ & _ & _ & _ & H).
  apply (H [3%Z] [5%Z]); [discriminate | discriminate | reflexivity
                         | reflexivity | discriminate | discriminate].
Defined.

Lemma getEnviron_spec_witness :
  getEnviron Demo.FS rv 0 (task [] []) ∅ world0 = Ok None
  /\ forall r,
       getEnviron Demo.FS rv 0 task_env ∅ world0 = Ok r ->
       exists order added,
         Permutation order (map_to_list ({["A" := "1"]} : gmap string string))
         /\ Forall2 (substituted rv ∅) order added
         /\ r = Some (Environ (environ world0) ++ added).
Proof.
  split.
  - apply (getEnviron_spec rv 0 (task [] []) ∅ world0). reflexivity.
  - apply (getEnviron_spec rv 0 task_env ∅ world0). reflexivity.
Defined.

Lemma RunTask_order_witness :
  task_run Demo.FS hv rv rc Demo.glob Demo.modTime false
    (Demo.RunTask tasks1 false 4) task_a "a" (quiet 80) world0
    (fst (exec (quiet 80) (Demo.RunTask tasks1 false 5 "a") world0))
    (snd (exec (quiet 80) (Demo.RunTask tasks1 false 5 "a") world0))
  /\ snd (exec (quiet 80) (Demo.RunTask tasks1 false 5 "a") world0) = Ret None.
Proof.
  split; [|vm_compute; reflexivity].
  apply (RunTask_order hv rv rc Demo.glob Demo.modTime tasks1 false 4 "a"
           task_a (quiet 80) world0);
    [reflexivity | apply surjective_pairing].
Defined.

Lemma RunTask_deps_failure_witness :
  In (taskRunError "x" (otherError "exit status 1"))
     (failures (snd (exec (quiet 9) (Demo.runDeps tasks2 4 task_p) world0)))
  /\ snd (exec (quiet 40) (Demo.RunTask tasks2 false 5 "p") world0)
     = Ret (Some (taskRunError "x" (otherError "exit status 1")))
  /\ ran "echo y"
       (trace (fst (exec (quiet 40) (Demo.RunTask tasks2 false 5 "p") world0)))
     = true
  /\ ran "echo p"
       (trace (fst (exec (quiet 40) (Demo.RunTask tasks2 false 5 "p") world0)))
     = false
  /\ exists e1,
       first_seen (quiet 8)
         (Group (map (dep_unit Demo.FS rv (Demo.RunTask tasks2 false 4) ∅)
                     (Deps task_p)) None Ret) world0 = Some e1
       /\ forall s2 w2 rd,
            exec (quiet 9 ++ s2) (Demo.runDeps tasks2 4 task_p) world0
            = (w2, Ret rd) ->
            rd = Some e1
            /\ forall s3,
                 exec ((quiet 9 ++ s2) ++ s3)
                      (Demo.RunTask tasks2 false 5 "p") world0
                 = exec s3 (Ret (Some e1)) w2.
Proof.
  assert (Hin : In (taskRunError "x" (otherError "exit status 1"))
     (failures (snd (exec (quiet 9) (Demo.runDeps tasks2 4 task_p) world0))))
    by (vm_compute; left; reflexivity).
  split; [exact Hin|]. split; [vm_compute; reflexivity|].
  split; [vm_compute; reflexivity|]. split; [vm_compute; reflexivity|].
  destruct (RunTask_deps_failure hv rv rc Demo.glob Demo.modTime tasks2 false
              4 "p" task_p ∅ (alone 0) (quiet 8) world0
              (fst (exec (quiet 9) (Demo.runDeps tasks2 4 task_p) world0))
              (snd (exec (quiet 9) (Demo.runDeps tasks2 4 task_p) world0))
              (taskRunError "x" (otherError "exit status 1")))
    as (e1 & H1 & _ & H3);
    [reflexivity | reflexivity | apply surjective_pairing | exact Hin |].
  exists e1. split; [exact H1 | exact H3].
Defined.

Lemma runCommand_subtask_is_RunTask_witness :
  exec (quiet 20) (Demo.runCommand tasks1 4 task_sub 0) world0
  = exec (quiet 19) (Demo.RunTask tasks1 false 4 "b") world0.
Proof.
  apply (runCommand_subtask_is_RunTask hv rv rc Demo.glob Demo.modTime
           tasks1 false 4 task_sub 0 "^b" "b" ∅ (alone 0) (quiet 19) world0);
    reflexivity.
Defined.

Lemma runCommand_subtask_frame_witness :
  is_Err (rv (Dir task_sub') ∅) = true
  /\ exec (quiet 20) (Demo.runCommand tasks1 4 task_sub' 0) world0
     = exec (quiet 20) (Demo.runCommand tasks1 4 task_sub 0) world0.
Proof.
  split; [reflexivity|].
  apply (runCommand_subtask_frame hv rv rc Demo.glob Demo.modTime
           tasks1 false 4 task_sub 0 "^b" "b" ∅ "$nowhere" "OUT"
           (Some {["K" := "$V"]}) (alone 0) (quiet 19) world0);
    reflexivity.
Defined.

Lemma runCommand_Set_witness :
  exec (quiet 4) (Demo.runCommand tasks1 4 task_hello 0) world0
  = (mkWorld [("HOME", "/root"); ("OUT", "hello")] []
       [Spawn (mkOpts false "echo hello" "" None os_Stdin buff os_Stderr)],
     Ret None).
Proof.
  destruct (runCommand_Set hv rv rc Demo.glob Demo.modTime tasks1 false 4
              task_hello 0 "echo hello" "echo hello" "" ("hello" +:+ LF) ∅
              None [] None (alone 0) (alone 0) (alone 0) (alone 0) world0)
    as (_ & H & _); [discriminate | reflexivity..|].
  apply H. reflexivity.
Defined.

(** C4: the claim as first stated fails on an output that begins with
    white space: the command prints two spaces, "hello" and a newline;
    trimmed at the end only that is the two spaces and "hello", but OUT
    holds "hello". *)
Lemma runCommand_Set_leading_space :
  Demo.RunCommand
    (mkOpts false "echo   hello" "" None os_Stdin buff os_Stderr) world0
  = ([], "  hello" +:+ LF, None)
  /\ snd (exec (quiet 4) (Demo.runCommand tasks1 4 task_indented 0) world0)
     = Ret None
  /\ Getenv "OUT"
       (environ
          (fst (exec (quiet 4) (Demo.runCommand tasks1 4 task_indented 0)
                  world0)))
     = Some "hello"
  /\ TrimRightSpace ("  hello" +:+ LF) = "  hello"
  /\ Getenv "OUT"
       (environ
          (fst (exec (quiet 4) (Demo.runCommand tasks1 4 task_indented 0)
                  world0)))
     <> Some (TrimRightSpace ("  hello" +:+ LF)).
Proof. repeat split; try reflexivity. vm_compute. discriminate. Qed.

Lemma Run_cyclic_witness :
  exec (quiet 2) (Demo.Run true tasks1 false 5 ["a"]) world0
  = (say [Fatal "Cyclic dependency detected"] world0, Halt Exit1).
Proof.
  apply (Run_cyclic hv rv rc Demo.glob Demo.modTime
           (Demo.readTaskfile tasks1) (fun _ => true) Demo.WatchTasks
           false false 5 ["a"] tasks1 (alone 0) (alone 0) (alone 0) world0);
    reflexivity.
Defined.

Lemma Run_missing_witness :
  tasks1 !! "zz" = None
  /\ exec (quiet 3) (Demo.Run false tasks1 false 5 ["a"; "zz"]) world0
     = (say [Print (taskNotFoundError "zz"); ExistingTasksHelp] world0,
        Ret None).
Proof.
  apply (Run_missing hv rv rc Demo.glob Demo.modTime
           (Demo.readTaskfile tasks1) (fun _ => false) Demo.WatchTasks
           false false 5 ["a"; "zz"] tasks1 "zz"
           (alone 0) (alone 0) (alone 0) (alone 0) world0);
    reflexivity.
Defined.

(** C7: the claim as first stated fails when an existing name is requested
    together with a missing one: "a" is in the registry and, requested
    alone, has its commands run; requested with "zz", Run returns after
    the two messages and nothing of "a" has been run. *)
Lemma Run_missing_skips_all :
  is_Some (tasks1 !! "a")
  /\ snd (exec (quiet 200) (Demo.Run false tasks1 false 5 ["a"]) world0)
     = Ret None
  /\ ran "echo a1"
       (trace (fst (exec (quiet 200) (Demo.Run false tasks1 false 5 ["a"])
                      world0))) = true
  /\ snd (exec (quiet 200) (Demo.Run false tasks1 false 5 ["a"; "zz"]) world0)
     = Ret None
  /\ trace (fst (exec (quiet 200)
                   (Demo.Run false tasks1 false 5 ["a"; "zz"]) world0))
     = [Print (taskNotFoundError "zz"); ExistingTasksHelp].
Proof. repeat split; try (vm_compute; reflexivity). now eexists. Qed.

(** *** The further properties on the concrete instance *)

Local Abbreviation gl := Demo.glob.
Local Abbreviation mt := Demo.modTime.

Lemma RunTask_keeps_variable_witness :
  Getenv "OUT" (environ (fst (exec (quiet 8) (Demo.RunTask tasks3 false 5 "h")
                                world0))) = Some "hello"
  /\ Getenv "HOME"
       (environ (fst (exec (quiet 8) (Demo.RunTask tasks3 false 5 "h") world0)))
     = Getenv "HOME" (environ world0).
Proof.
  split; [vm_compute; reflexivity|].
  apply (RunTask_keeps_variable hv rv rc gl mt tasks3 false "HOME" 5 "h"
           (quiet 8) world0).
  - apply map_Forall_lookup.
    apply (bool_decide_unpack _). vm_compute. exact I.
  - repeat constructor.
Defined.

Lemma RunTask_files_by_calls_witness :
  files_by_calls false world0
    (fst (exec (quiet 8) (Demo.RunTask tasks3 false 5 "h") world0)).
Proof.
  apply (RunTask_files_by_calls hv rv rc gl mt tasks3 false 5 "h"
           (quiet 8) world0).
  repeat constructor.
Defined.

Lemma RunTask_cancels_siblings_witness :
  exists w1 us e k,
    exec (quiet 9) (Demo.RunTask tasks2 false 5 "p") world0
    = (w1, Group us (Some e) k)
    /\ forallb is_Ret us = false
    /\ calls_cancelled true w1
         (fst (step 0 false (Group us (Some e) k) w1)).
Proof.
  do 4 eexists. split; [vm_compute; reflexivity|].
  split; [reflexivity|].
  refine (proj1 (RunTask_cancels_siblings hv rv rc gl mt tasks2 false 5 "p"
                   (quiet 9) world0 _ _ _ _ (alone 0) _)).
  vm_compute. reflexivity.
Defined.

Lemma runDeps_waits_for_all_witness :
  exists s1 mj s2 us wj,
    quiet 29 = s1 ++ mj :: s2
    /\ exec (alone 0 :: s1) (Demo.runDeps tasks2 4 task_p) world0
       = (wj, Group us (Some (taskRunError "x" (otherError "exit status 1")))
                Ret)
    /\ forallb is_Ret us = true
    /\ length us = length (Deps task_p).
Proof.
  refine (proj1 (runDeps_waits_for_all hv rv rc gl mt tasks2 false 4 task_p ∅
                   (alone 0) (quiet 29) world0
                   (fst (exec (quiet 30) (Demo.runDeps tasks2 4 task_p) world0))
                   _) _ _); [reflexivity|].
  vm_compute. reflexivity.
Defined.

Lemma runCmds_continues_witness :
  exists s1 s2 w0,
    quiet 4 = s1 ++ s2 /\ exec s2 (Ret None) w0 = (world_hello_ran, Ret None)
    /\ forall s',
         exec (s1 ++ s')
              (runCmds Demo.FS hv rv rc (Demo.RunTask tasks3 false 4)
                 task_hello "h" [0; 1]) world0
         = exec s'
             (runCmds Demo.FS hv rv rc (Demo.RunTask tasks3 false 4)
                task_hello "h" [1]) w0.
Proof.
  apply (runCmds_continues hv rv rc gl mt tasks3 false 4 task_hello "h" 0 [1]
           (quiet 4) world0 world_hello_ran None).
  vm_compute. reflexivity.
Defined.

Lemma RunTask_up_to_date_witness :
  exists s1 s2 w0,
    quiet 2 = s1 ++ s2
    /\ exec s2 (Ret None) w0 = (world_newer, Ret None)
    /\ forall m1,
         (Demo.isUpToDate task_gen (files (others m1 w0)) = true ->
          forall m2,
            exec (s1 ++ [m1; m2])
                 (Demo.RunTask ({["g" := task_gen]}) false 5 "g") world_newer
            = (say [Log (up_to_date_line "g")] (others m2 (others m1 w0)),
               Ret None))
         /\ (Demo.isUpToDate task_gen (files (others m1 w0)) = false ->
             forall s',
               exec (s1 ++ m1 :: s')
                    (Demo.RunTask ({["g" := task_gen]}) false 5 "g")
                    world_newer
               = exec s'
                   (runCmds Demo.FS hv rv rc
                      (Demo.RunTask ({["g" := task_gen]}) false 4)
                      task_gen "g" (seq 0 (length (Cmds task_gen))))
                   (others m1 w0)).
Proof.
  apply (RunTask_up_to_date hv rv rc gl mt ({["g" := task_gen]}) false 4 "g"
           task_gen (quiet 2) world_newer world_newer);
    reflexivity.
Defined.

Lemma runCmds_missing_subtask_witness :
  exec [alone 0] (Demo.runCommand tasks1 5 task_lost 0) world0
  = (world0, Ret (Some (taskNotFoundError "zz")))
  /\ exec (quiet 6)
          (runCmds Demo.FS hv rv rc (Demo.RunTask tasks1 false 5)
             task_lost "lost" [0; 1]) world0
     = exec (quiet 5)
         (Ret (Some (taskRunError "lost" (taskNotFoundError "zz")))) world0.
Proof.
  apply (runCmds_missing_subtask hv rv rc gl mt tasks1 false 4 task_lost
           "lost" 0 [1] "^zz" "zz" ∅ (alone 0) (quiet 5) world0);
    reflexivity.
Defined.

Lemma runCommand_shown_witness :
  exec (quiet 4) (Demo.runCommand tasks1 4 task_echo 0) world0
  = (mkWorld [("HOME", "/root")] []
       [Log "echo hi";
        Spawn (mkOpts false "echo hi" "" None os_Stdin os_Stdout os_Stderr);
        Shown ("hi" +:+ LF)],
     Ret None).
Proof.
  apply (runCommand_shown hv rv rc gl mt tasks1 false 4 task_echo 0
           "echo hi" "echo hi" "" ∅ None
           (alone 0) (alone 0) (alone 0) (alone 0) world0);
    reflexivity.
Defined.

Lemma runCommand_substitution_errors_witness :
  exec (quiet 5) (Demo.runCommand tasks1 4 task_baddir 0) world0
  = exec (quiet 4) (Ret (Some (otherError "no value for variable"))) world0.
Proof.
  destruct (runCommand_substitution_errors hv rv rc gl mt tasks1 false 4
              task_baddir 0 (otherError "no value for variable")
              (alone 0) (quiet 4) world0) as [_ H].
  destruct (H ∅ "echo hi" eq_refl eq_refl) as [_ H'].
  destruct (H' "echo hi" eq_refl eq_refl) as [Hdir _].
  apply Hdir. reflexivity.
Defined.

Lemma RunTask_variables_error_witness :
  exec (quiet 5)
       (RunTask_noVariables tasks1 false 5 "a") world0
  = exec (quiet 4) (Ret (Some (otherError "no variables"))) world0.
Proof.
  apply (RunTask_variables_error noVariables rv rc gl mt tasks1 false 4 "a"
           task_a (otherError "no variables") (alone 0) (quiet 4) world0);
    reflexivity.
Defined.

Lemma Run_runs_in_order_witness :
  exec (alone 0 :: quiet 40) (Demo.Run false tasks1 false 5 ["b"; "c"]) world0
  = exec (quiet 40)
      (runAll Demo.FS hv rv rc gl mt false tasks1 5 ["b"; "c"]) world0
  /\ commands
       (trace (fst (exec (alone 0 :: quiet 40)
                      (Demo.Run false tasks1 false 5 ["b"; "c"]) world0)))
     = ["echo b"; "echo b"; "echo c"].
Proof.
  split; [|vm_compute; reflexivity].
  apply (Run_runs_in_order hv rv rc gl mt (Demo.readTaskfile tasks1)
           (fun _ => false) Demo.WatchTasks false false 5 ["b"; "c"] tasks1
           (alone 0) (alone 0) world0);
    reflexivity.
Defined.

Lemma Run_watch_witness :
  exists s1 s2 w0,
    [] = s1 ++ s2 /\ exec s2 (Ret None) w0 = (world0, Ret None)
    /\ exec (opening Demo.FS ["a"] (alone 0) ++ alone 0 :: s1)
            (Run_watching tasks1 5 ["a"]) world0
       = (w0, Ret None).
Proof.
  apply (Run_watch hv rv rc gl mt (Demo.readTaskfile tasks1)
           (fun _ => false) Demo.WatchTasks false true 5 ["a"] tasks1
           (alone 0) (alone 0) world0 eq_refl eq_refl eq_refl eq_refl
           [] world0 None eq_refl).
Defined.

Lemma Run_unreadable_witness :
  exec (quiet 2)
       (Run_noTaskfile 5 ["a"]) world0
  = (say [FatalErr (otherError "no Taskfile")] world0, Halt Exit1).
Proof.
  apply (Run_unreadable hv rv rc gl mt noTaskfile (fun _ => false)
           Demo.WatchTasks false false 5 ["a"] (otherError "no Taskfile")
           (alone 0) (alone 0) (alone 0) world0).
  reflexivity.
Defined.

Lemma getEnviron_any_order_witness :
  exists added added',
    ["HOME=/root"; "A=1"; "B=2"] = Environ (environ world0) ++ added
    /\ ["HOME=/root"; "B=2"; "A=1"] = Environ (environ world0) ++ added'
    /\ Permutation added added'.
Proof.
  apply (getEnviron_any_order rv 0 1 task_env2 ∅ world0); reflexivity.
Defined.

Lemma missing_dependency_blocks_witness :
  exists e s1 s2 w1,
    Some (taskNotFoundError "nope") = Some e
    /\ quiet 12 = s1 ++ s2
    /\ exec s1 (Demo.runDeps tasks6 4 task_q) world0 = (w1, Ret (Some e))
    /\ exec s2 (Ret (Some e)) w1 = (world0, Ret (Some e)).
Proof.
  refine (proj2 (missing_dependency_blocks hv rv rc gl mt tasks6 false 4 "q"
                   task_q "nope" _ _ _) (quiet 12) world0 world0 _ _).
  - reflexivity.
  - now left.
  - intros vars dep [= <-]. reflexivity.
  - vm_compute. reflexivity.
Defined.

Lemma stored_variable_is_passed_on_witness :
  In "OUT=hello" ["HOME=/root"; "OUT=hello"; "A=1"].
Proof.
  apply (stored_variable_is_passed_on rv "OUT" "hello" 0 task_env ∅
           world_hello ["HOME=/root"; "OUT=hello"; "A=1"]
           [("HOME", "/root")]); reflexivity.
Defined.

Lemma RunTask_without_patterns_runs_witness :
  exists s1 s2 w0,
    quiet 2 = s1 ++ s2 /\ exec s2 (Ret None) w0 = (world_newer, Ret None)
    /\ forall m1 s',
         exec (s1 ++ m1 :: s') (Demo.RunTask tasks1 false 5 "b") world_newer
         = exec s'
             (runCmds Demo.FS hv rv rc (Demo.RunTask tasks1 false 4)
                (task ["echo b"] []) "b" [0])
             (others m1 w0).
Proof.
  apply (RunTask_without_patterns_runs hv rv rc gl mt tasks1 false 4 "b"
           (task ["echo b"] []) (quiet 2) world_newer world_newer).
  - reflexivity.
  - now left.
  - reflexivity.
Defined.

(** C6 at work: the generated file is newer than the source, and with
    Force the command is run all the same. *)
Lemma Force_disables_freshness_witness :
  Demo.isUpToDate task_built fs_newer = true
  /\ commands
       (trace (fst (exec (quiet 8) (Demo.RunTask tasks_built true 5 "g")
                      world_newer)))
     = ["echo build"]
  /\ Forall (fun i =>
               exists sa wa wb,
                 exec sa (runCommand_forced tasks_built 4 task_built i) wa
                 = (wb, Ret None))
            [0].
Proof.
  split; [vm_compute; reflexivity|]. split; [vm_compute; reflexivity|].
  refine (proj2 (proj2
            (Force_disables_freshness hv rv rc gl mt
               (fun _ _ => Ok []) (fun _ _ => Err (otherError "no time"))
               tasks_built 4 "g" task_built (quiet 8) world_newer
               (fst (exec (quiet 8) (Demo.RunTask tasks_built true 5 "g")
                       world_newer))
               (Ret None) _ _)) eq_refl).
  - reflexivity.
  - vm_compute. reflexivity.
Defined.

End Instances.
